(** * sopel.tools: message segmentation and the locked memories

    A shallow embedding of [get_sendable_message], [SopelMemory] and
    [SopelIdentifierMemory] from [sopel/tools/__init__.py], with the
    properties of these three established on the embedding.

    A Python [str] is a list of code points (as [Z]); the UTF-8 encoder is
    written out byte by byte; Python's slice and [rfind] index rules are
    written out for negative and oversized indices.  A [dict] is a [gmap]
    from what it tells its keys apart by to the key stored and its value;
    exceptions are an explicit outcome and the state of an object survives
    an exception raised half way through a method. *)

From Stdlib Require Import ZArith Lia.
From stdpp Require Import base option list countable strings gmap.

(** ** Python exceptions that the embedded code can raise *)

Inductive exception : Type :=
  | TypeError
  | KeyError
  | AttributeError
  | UnicodeEncodeError
  | RuntimeError.

(** ** Python text *)

Module Text.

Local Open Scope Z_scope.

(** A [str] is a sequence of code points. *)
Abbreviation str := (list Z).

(** Unicode scalar values: code points that are not surrogates.  Only a
    [str] made of these can be encoded. *)
Definition is_scalar_value (c : Z) : bool :=
  ((0 <=? c) && (c <? 0xD800)) || ((0xE000 <=? c) && (c <=? 0x10FFFF)).

Definition well_formed (text : str) : Prop :=
  Forall (λ c, is_scalar_value c = true) text.

(** [str.encode('utf-8')] on one code point; a surrogate raises
    [UnicodeEncodeError], which is [None] here. *)
Definition utf8_encode_codepoint (c : Z) : option (list Z) :=
  if negb (is_scalar_value c) then None
  else if c <? 0x80 then Some [c]
  else if c <? 0x800 then
    Some [Z.lor 0xC0 (Z.shiftr c 6); Z.lor 0x80 (Z.land c 0x3F)]
  else if c <? 0x10000 then
    Some [Z.lor 0xE0 (Z.shiftr c 12);
          Z.lor 0x80 (Z.land (Z.shiftr c 6) 0x3F);
          Z.lor 0x80 (Z.land c 0x3F)]
  else
    Some [Z.lor 0xF0 (Z.shiftr c 18);
          Z.lor 0x80 (Z.land (Z.shiftr c 12) 0x3F);
          Z.lor 0x80 (Z.land (Z.shiftr c 6) 0x3F);
          Z.lor 0x80 (Z.land c 0x3F)].

(** [text.encode('utf-8')]. *)
Fixpoint encode_utf8 (text : str) : option (list Z) :=
  match text with
  | [] => Some []
  | c :: rest =>
      match utf8_encode_codepoint c, encode_utf8 rest with
      | Some bs, Some bs' => Some (bs ++ bs')
      | _, _ => None
      end
  end.

(** How Python turns a slice bound into a position of a sequence of
    length [len]: a negative bound counts from the end, and every bound is
    clamped to [0 .. len]. *)
Definition slice_index (len i : Z) : Z :=
  if i <? 0 then Z.max 0 (i + len) else Z.min i len.

(** [text[:stop]] *)
Definition slice_to (text : str) (stop : Z) : str :=
  take (Z.to_nat (slice_index (Z.of_nat (length text)) stop)) text.

(** [text[start:]] *)
Definition slice_from (text : str) (start : Z) : str :=
  drop (Z.to_nat (slice_index (Z.of_nat (length text)) start)) text.

(** The greatest position [j] of [text], counted from [i], that holds [c]
    and lies in [lo <= j < hi]. *)
Fixpoint last_index_in (i : Z) (text : str) (c lo hi : Z) : option Z :=
  match text with
  | [] => None
  | x :: rest =>
      match last_index_in (i + 1) rest c lo hi with
      | Some j => Some j
      | None =>
          if (x =? c) && (lo <=? i) && (i <? hi) then Some i else None
      end
  end.

(** [text.rfind(c, start, end)] for a one-character needle: the highest
    index of [c] in [text[start:end]], or [-1]. *)
Definition rfind (text : str) (c start end_ : Z) : Z :=
  let len := Z.of_nat (length text) in
  default (-1)
    (last_index_in 0 text c (slice_index len start) (slice_index len end_)).

(** [str.isspace] on one code point: the code points Python treats as
    whitespace, which is what [str.lstrip()] removes. *)
Definition is_whitespace (c : Z) : bool :=
  ((0x09 <=? c) && (c <=? 0x0D)) || ((0x1C <=? c) && (c <=? 0x20))
  || (c =? 0x85) || (c =? 0xA0) || (c =? 0x1680)
  || ((0x2000 <=? c) && (c <=? 0x200A))
  || (c =? 0x2028) || (c =? 0x2029) || (c =? 0x202F)
  || (c =? 0x205F) || (c =? 0x3000).

(** [text.lstrip()] *)
Fixpoint lstrip (text : str) : str :=
  match text with
  | [] => []
  | c :: rest => if is_whitespace c then lstrip rest else text
  end.

(** The literal [' ']. *)
Definition SPACE : Z := 0x20.

(** An ASCII literal as a [str]. *)
Definition py (s : string) : str :=
  (λ a, Z.of_N (Ascii.N_of_ascii a)) <$> String.list_ascii_of_string s.

End Text.

(** ** get_sendable_message *)

Module Segmenter.

Import Text.
Local Open Scope Z_scope.

(** What running the function can give: a value, an exception, or no
    answer within the given number of loop iterations. *)
Inductive outcome (A : Type) : Type :=
  | Return (a : A)
  | Raise (e : exception)
  | OutOfFuel.
Arguments Return {A} a.
Arguments Raise {A} e.
Arguments OutOfFuel {A}.

(** The three variables the loop updates. *)
Record loop_state : Type := LoopState {
  text : str;
  excess : str;
  unicode_max_length : Z
}.

(** The two branches of the loop body. *)
Inductive branch : Type := HardCut | SpaceCut.

(** [last_space = text.rfind(' ', 0, unicode_max_length)] *)
Definition last_space (st : loop_state) : Z :=
  rfind (text st) SPACE 0 (unicode_max_length st).

(** The branch that [if last_space == -1] selects. *)
Definition branch_taken (st : loop_state) : branch :=
  if last_space st =? -1 then HardCut else SpaceCut.

(** One pass through the body of the [while]. *)
Definition loop_body (st : loop_state) : loop_state :=
  if last_space st =? -1 then
    {| text := slice_to (text st) (unicode_max_length st);
       excess := slice_from (text st) (unicode_max_length st) ++ excess st;
       unicode_max_length := unicode_max_length st - 1 |}
  else
    {| text := slice_to (text st) (last_space st);
       excess := slice_from (text st) (last_space st);
       unicode_max_length := unicode_max_length st |}.

(** The test of the [while]: [len(text.encode('utf-8')) > max_length]. *)
Definition loop_test (max_length : Z) (st : loop_state) : option bool :=
  match encode_utf8 (text st) with
  | Some bytes => Some (Z.of_nat (length bytes) >? max_length)
  | None => None
  end.

(** The [while] loop followed by the [return], run for at most [fuel]
    tests of the condition. *)
Fixpoint loop (fuel : nat) (max_length : Z) (st : loop_state)
  : outcome (str * str) :=
  match fuel with
  | O => OutOfFuel
  | S fuel' =>
      match loop_test max_length st with
      | None => Raise UnicodeEncodeError
      | Some true => loop fuel' max_length (loop_body st)
      | Some false => Return (text st, lstrip (excess st))
      end
  end.

(** [unicode_max_length = max_length] and [excess = ''] *)
Definition initial_state (text : str) (max_length : Z) : loop_state :=
  {| text := text; excess := []; unicode_max_length := max_length |}.

(** The body of the function, with the number of iterations bounded. *)
Definition get_sendable_message_fuel
  (fuel : nat) (text : str) (max_length : Z) : outcome (str * str) :=
  loop fuel max_length (initial_state text max_length).

(** A number of iterations that is enough whenever [max_length] is not
    negative. *)
Definition enough_fuel (text : str) (max_length : Z) : nat :=
  (length text + Z.to_nat (max_length + 1) + 1)%nat.

(** The function, run with that many iterations.  With a negative
    [max_length] the test of the [while] never fails; the call does not
    return, and the answer here is [OutOfFuel] for every amount of fuel. *)
Definition get_sendable_message (text : str) (max_length : Z)
  : outcome (str * str) :=
  get_sendable_message_fuel (enough_fuel text max_length) text max_length.

End Segmenter.

(** ** Python objects, dictionaries and locks *)

Module Py.

Import Text.

(** The objects used as keys.  [Identifier] is the class of
    [sopel.tools.identifiers], which this file does not define: it is a
    parameter, and its equality is the [==] that a [dict] uses on it.  A
    [list] is the unhashable key. *)
Inductive pyobj (Identifier : Type) : Type :=
  | PStr (s : str)
  | PInt (n : Z)
  | PIdentifier (i : Identifier)
  | PList (items : list Z).
Arguments PStr {Identifier} s.
Arguments PInt {Identifier} n.
Arguments PIdentifier {Identifier} i.
Arguments PList {Identifier} items.

#[global] Instance pyobj_eq_dec `{EqDecision Identifier} :
  EqDecision (pyobj Identifier).
Proof. solve_decision. Defined.

Definition pyobj_to_sum {Identifier} (o : pyobj Identifier)
  : str + Z + Identifier + list Z :=
  match o with
  | PStr s => inl (inl (inl s))
  | PInt n => inl (inl (inr n))
  | PIdentifier i => inl (inr i)
  | PList l => inr l
  end.

Definition pyobj_of_sum {Identifier} (x : str + Z + Identifier + list Z)
  : pyobj Identifier :=
  match x with
  | inl (inl (inl s)) => PStr s
  | inl (inl (inr n)) => PInt n
  | inl (inr i) => PIdentifier i
  | inr l => PList l
  end.

#[global] Instance pyobj_countable `{Countable Identifier} :
  Countable (pyobj Identifier).
Proof.
  apply (inj_countable' pyobj_to_sum pyobj_of_sum).
  intros []; reflexivity.
Defined.

(** [hash(key)] succeeds on every key but a [list]. *)
Definition hashable {Identifier} (key : pyobj Identifier) : bool :=
  match key with
  | PList _ => false
  | _ => true
  end.

(** What the memories rely on of the class [Identifier], a subclass of
    [str]: an identifier hashes and compares as its folded text
    ([_lowered]), also against a plain [str]; two identifiers are [==]
    exactly when their folded texts are the same. *)
Class Folded (Identifier : Type) : Type := {
  lowered : Identifier → str;
  lowered_inj : Inj (=) (=) lowered
}.

(** What a [dict] tells its keys apart by, their hash and [==]: the text of
    a [str], the folded text of an identifier, the number of an [int]. *)
Inductive hkey : Type :=
  | HStr (s : str)
  | HInt (n : Z).

#[global] Instance hkey_eq_dec : EqDecision hkey.
Proof. solve_decision. Defined.

#[global] Instance hkey_countable : Countable hkey.
Proof.
  apply (inj_countable'
           (λ h, match h with HStr s => inl s | HInt n => inr n end)
           (λ x, match x with inl s => HStr s | inr n => HInt n end)).
  intros []; reflexivity.
Defined.

(** The entry of a [dict] that a key goes to; a key that does not hash
    has none.  The [str] ['a'] and an identifier of folded text ['a'] go to
    the same entry. *)
Definition dict_key `{Folded Identifier} (k : pyobj Identifier)
  : option hkey :=
  match k with
  | PStr s => Some (HStr s)
  | PInt n => Some (HInt n)
  | PIdentifier i => Some (HStr (lowered i))
  | PList _ => None
  end.

(** A [dict]: each entry holds the key object it was first stored with and
    its value. *)
Record pydict (Identifier V : Type) : Type := PyDict {
  entries : gmap hkey (pyobj Identifier * V)
}.
Arguments PyDict {Identifier V} entries.
Arguments entries {Identifier V} _.

(** [{}] *)
#[global] Instance pydict_empty {Identifier V} : Empty (pydict Identifier V) :=
  PyDict ∅.

(** The value stored for a key, if the [dict] has the key. *)
#[global] Instance pydict_lookup `{Folded Identifier} {V} :
  Lookup (pyobj Identifier) V (pydict Identifier V) :=
  λ k d,
    match dict_key k with
    | Some h => snd <$> entries d !! h
    | None => None
    end.

(** The store of a value for a key that hashes: an entry that exists keeps
    its key object and takes the value, a new entry takes both. *)
#[global] Instance pydict_insert `{Folded Identifier} {V} :
  Insert (pyobj Identifier) V (pydict Identifier V) :=
  λ k v d,
    match dict_key k with
    | Some h =>
        let stored := match entries d !! h with
                      | Some (k0, _) => k0
                      | None => k
                      end in
        PyDict (<[h := (stored, v)]> (entries d))
    | None => d
    end.

(** The key objects that a [dict] holds. *)
#[global] Instance pydict_dom `{Countable Identifier} {V} :
  Dom (pydict Identifier V) (gset (pyobj Identifier)) :=
  λ d, map_img (fst <$> entries d).

(** The values of a [dict], entry by entry: what [==] on two of them
    compares. *)
Definition contents {Identifier V} (d : pydict Identifier V) : gmap hkey V :=
  snd <$> entries d.

(** What a method call can do: return, raise, or wait for ever on a lock
    that nobody releases. *)
Inductive result (A : Type) : Type :=
  | Returns (a : A)
  | Raises (e : exception)
  | Blocks.
Arguments Returns {A} a.
Arguments Raises {A} e.
Arguments Blocks {A}.

(** A method body: it runs on [self] and leaves a [self] behind, also when
    it raises. *)
Definition method (Self A : Type) : Type := Self → result A * Self.

#[global] Instance method_ret {Self} : MRet (method Self) :=
  λ A a self, (Returns a, self).

(** Sequencing of two statements: an exception or a blocked call in the
    first skips the second and keeps the state reached so far. *)
#[global] Instance method_bind {Self} : MBind (method Self) :=
  λ A B k c self,
    match c self with
    | (Returns a, self') => k a self'
    | (Raises e, self') => (Raises e, self')
    | (Blocks, self') => (Blocks, self')
    end.

(** [threading.Lock]: [lock_id] is the identity of the lock object. *)
Record Lock : Type := MkLock { lock_id : nat; locked : bool }.

Definition threading_Lock (id : nat) : Lock :=
  {| lock_id := id; locked := false |}.

(** [lock.acquire()] with no timeout: blocks while the lock is held. *)
Definition acquire (l : Lock) : result unit * Lock :=
  if locked l then (Blocks, l)
  else (Returns tt, {| lock_id := lock_id l; locked := true |}).

(** [lock.release()]: releasing an unlocked lock is a [RuntimeError]. *)
Definition release (l : Lock) : result unit * Lock :=
  if locked l then (Returns tt, {| lock_id := lock_id l; locked := false |})
  else (Raises RuntimeError, l).

End Py.

(** ** dict *)

Module dict.

Import Py.

Section with_types.
Context `{Countable Identifier} `{!Folded Identifier} {V : Type}
  `{EqDecision V}.

Abbreviation key := (pyobj Identifier).
Abbreviation dict := (pydict Identifier V).

(** [dict.__setitem__(d, key, value)] *)
Definition __setitem__ (d : dict) (k : key) (v : V)
  : exception + dict :=
  if hashable k then inr (<[k := v]> d) else inl TypeError.

(** [dict.__getitem__(d, key)] *)
Definition __getitem__ (d : dict) (k : key) : exception + V :=
  if hashable k then
    match d !! k with
    | Some v => inr v
    | None => inl KeyError
    end
  else inl TypeError.

(** [dict.__contains__(d, key)] *)
Definition __contains__ (d : dict) (k : key) : exception + bool :=
  if hashable k then inr (bool_decide (is_Some (d !! k)))
  else inl TypeError.

(** [dict.__init__(d, items)] on the pairs of its one positional
    argument (no pair when there is no argument): each pair is inserted in
    turn, by the C implementation and not through [__setitem__] of a
    subclass. *)
Fixpoint init_from (d : dict) (items : list (key * V))
  : exception + dict :=
  match items with
  | [] => inr d
  | (k, v) :: rest =>
      match __setitem__ d k v with
      | inl e => inl e
      | inr d' => init_from d' rest
      end
  end.

Definition __init__ (items : list (key * V)) : exception + dict :=
  init_from ∅ items.

(** [dict.__eq__(d1, d2)]: the same keys with equal values. *)
Definition __eq__ (d1 d2 : dict) : bool :=
  bool_decide (contents d1 = contents d2).

(** [dict.__ne__(d1, d2)] *)
Definition __ne__ (d1 d2 : dict) : bool := negb (__eq__ d1 d2).

(** [dict.__hash__] is [None]: a [dict] is unhashable. *)
Definition __hash__ : option (dict → Z) := None.

End with_types.

End dict.

(** ** class SopelMemory(dict) *)

Module SopelMemory.

Import Py.

Section with_types.
Context `{Countable Identifier} `{!Folded Identifier} {V : Type}
  `{EqDecision V}.

Abbreviation key := (pyobj Identifier).

(** An instance: the entries it holds as a [dict], and [self.lock]. *)
Record t : Type := Make { items : pydict Identifier V; lock : Lock }.

(** [self.lock.acquire()] *)
Definition lock_acquire : method t unit :=
  λ self,
    let '(r, l) := acquire (lock self) in
    (r, {| items := items self; lock := l |}).

(** [self.lock.release()] *)
Definition lock_release : method t unit :=
  λ self,
    let '(r, l) := release (lock self) in
    (r, {| items := items self; lock := l |}).

(** [dict.__setitem__(self, key, value)] *)
Definition dict_setitem (k : key) (value : V) : method t unit :=
  λ self,
    match dict.__setitem__ (items self) k value with
    | inl e => (Raises e, self)
    | inr d => (Returns tt, {| items := d; lock := lock self |})
    end.

(** [dict.__contains__(self, key)] *)
Definition dict_contains (k : key) : method t bool :=
  λ self,
    match dict.__contains__ (items self) k with
    | inl e => (Raises e, self)
    | inr b => (Returns b, self)
    end.

(** [dict.__init__] on the arguments then [self.lock = threading.Lock()];
    [lock_id] is the identity of the new lock. *)
Definition __init__ (lock_id : nat) (args : list (key * V)) : exception + t :=
  match dict.__init__ args with
  | inl e => inl e
  | inr d => inr {| items := d; lock := threading_Lock lock_id |}
  end.

Definition __setitem__ (k : key) (value : V) : method t unit :=
  _ ← lock_acquire;
  result ← dict_setitem k value;
  _ ← lock_release;
  mret result.

Definition __contains__ (k : key) : method t bool :=
  _ ← lock_acquire;
  result ← dict_contains k;
  _ ← lock_release;
  mret result.

(** [__getitem__] is not overridden: it is [dict.__getitem__]. *)
Definition __getitem__ (k : key) : method t V :=
  λ self,
    match dict.__getitem__ (items self) k with
    | inl e => (Raises e, self)
    | inr v => (Returns v, self)
    end.

(** [__eq__ = dict.__eq__] *)
Definition __eq__ (self other : t) : bool :=
  dict.__eq__ (items self) (items other).

(** [__ne__ = dict.__ne__] *)
Definition __ne__ (self other : t) : bool :=
  dict.__ne__ (items self) (items other).

(** [__hash__ = dict.__hash__] *)
Definition __hash__ : option (t → Z) :=
  (λ h self, h (items self)) <$> dict.__hash__.

(** [hash(self)]: a [TypeError] when [__hash__] is [None]. *)
Definition hash (self : t) : result Z :=
  match __hash__ with
  | Some h => Returns (h self)
  | None => Raises TypeError
  end.

End with_types.

Arguments t Identifier V : clear implicits.

End SopelMemory.

(** ** class SopelIdentifierMemory(SopelMemory) *)

Module SopelIdentifierMemory.

Import Py.

Section with_types.
Context `{Countable Identifier} `{!Folded Identifier} {V : Type}
  `{EqDecision V}.

Abbreviation key := (pyobj Identifier).

(** [IdentifierFactory]: called on whatever key the caller passes, it
    returns an [Identifier] or raises. *)
Definition IdentifierFactory : Type := key → exception + Identifier.

(** An instance: the [SopelMemory] part and [self.make_identifier]. *)
Record t : Type := Make {
  base : SopelMemory.t Identifier V;
  make_identifier : IdentifierFactory
}.

(** A call of a [SopelMemory] method through [super()]. *)
Definition super {A} (c : method (SopelMemory.t Identifier V) A)
  : method t A :=
  λ self,
    let '(r, b) := c (base self) in
    (r, {| base := b; make_identifier := make_identifier self |}).

(** [self.make_identifier(key)] *)
Definition call_make_identifier (k : key) : method t Identifier :=
  λ self,
    match make_identifier self k with
    | inl e => (Raises e, self)
    | inr i => (Returns i, self)
    end.

(** [super().__init__] on the arguments, then
    [self.make_identifier = identifier_factory]. *)
Definition __init__ (lock_id : nat) (args : list (key * V))
  (identifier_factory : IdentifierFactory) : exception + t :=
  match SopelMemory.__init__ lock_id args with
  | inl e => inl e
  | inr b => inr {| base := b; make_identifier := identifier_factory |}
  end.

Definition __getitem__ (k : key) : method t V :=
  i ← call_make_identifier k;
  super (SopelMemory.__getitem__ (PIdentifier i)).

Definition __contains__ (k : key) : method t bool :=
  i ← call_make_identifier k;
  super (SopelMemory.__contains__ (PIdentifier i)).

Definition __setitem__ (k : key) (value : V) : method t unit :=
  i ← call_make_identifier k;
  super (SopelMemory.__setitem__ (PIdentifier i) value).

(** The keys held by the underlying mapping. *)
Definition stored_keys (self : t) : gset key :=
  dom (SopelMemory.items (base self)).

(** [k] is something the factory of [self] returns. *)
Definition is_normalized (self : t) (k : key) : Prop :=
  ∃ raw i, make_identifier self raw = inr i ∧ k = PIdentifier i.

End with_types.

Arguments t Identifier V : clear implicits.

End SopelIdentifierMemory.

(** ** Notions used to state the properties of get_sendable_message *)

Module SegmenterSpec.

Import Text Segmenter.
Local Open Scope Z_scope.

(** [len(chunk.encode('utf-8')) <= max_length] *)
Definition within_budget (chunk : str) (max_length : Z) : Prop :=
  ∃ bytes, encode_utf8 chunk = Some bytes
           ∧ Z.of_nat (length bytes) ≤ max_length.

(** The call number [n] (from 0) of a caller that sends [sendable] and
    calls again on [excess]. *)
Fixpoint nth_call (n : nat) (text : str) (max_length : Z)
  : outcome (str * str) :=
  match n with
  | O => get_sendable_message text max_length
  | S n' =>
      match get_sendable_message text max_length with
      | Return (_, excess) => nth_call n' excess max_length
      | other => other
      end
  end.

(** [sendable] and [excess] hold all of [t]: they are [t] but for a run
    of whitespace between them. *)
Definition reconstructs (t sendable excess : str) : Prop :=
  ∃ ws, Forall (λ c, is_whitespace c = true) ws
        ∧ t = sendable ++ ws ++ excess.

(** Where the search of [last_space] ends: [unicode_max_length] as a
    position of [text]. *)
Definition search_end (st : loop_state) : Z :=
  slice_index (Z.of_nat (length (text st))) (unicode_max_length st).

(** [j] is the last position before the end of the search whose code point
    satisfies [p]. *)
Definition last_before (p : Z → bool) (st : loop_state) (j : nat) : Prop :=
  Z.of_nat j < search_end st
  ∧ (∃ c, text st !! j = Some c ∧ p c = true)
  ∧ ∀ (k : nat) c, (j < k)%nat → Z.of_nat k < search_end st →
                   text st !! k = Some c → p c = false.

(** No position before the end of the search satisfies [p]. *)
Definition none_before (p : Z → bool) (st : loop_state) : Prop :=
  ∀ (k : nat) c, Z.of_nat k < search_end st →
                 text st !! k = Some c → p c = false.

(** The state after a cut of [text] at position [j]. *)
Definition cut_at (st : loop_state) (j : nat) : loop_state :=
  {| text := take j (text st);
     excess := drop j (text st);
     unicode_max_length := unicode_max_length st |}.

(** The state after the hard cut: [text] cut at the working offset, the
    tail put in front of the excess, the offset lowered by one. *)
Definition hard_cut (st : loop_state) : loop_state :=
  {| text := slice_to (text st) (unicode_max_length st);
     excess := slice_from (text st) (unicode_max_length st) ++ excess st;
     unicode_max_length := unicode_max_length st - 1 |}.

(** One iteration looks for the boundary [p]: it cuts at the last position
    that satisfies [p] when there is one, and takes the hard cut only when
    there is none. *)
Definition boundary_search (p : Z → bool) (st : loop_state) : Prop :=
  (∀ j, last_before p st j →
        branch_taken st = SpaceCut ∧ loop_body st = cut_at st j)
  ∧ (branch_taken st = HardCut → none_before p st).

Definition is_space (c : Z) : bool := c =? SPACE.

(** What the loop keeps true when [max_length] is not negative. *)
Definition invariant (max_length : Z) (st : loop_state) : Prop :=
  well_formed (text st) ∧ well_formed (excess st)
  ∧ -1 ≤ unicode_max_length st
  ∧ (unicode_max_length st < max_length →
     Z.of_nat (length (text st)) ≤ unicode_max_length st + 1).

(** What decreases at every iteration. *)
Definition measure (st : loop_state) : nat :=
  (length (text st) + Z.to_nat (unicode_max_length st + 1))%nat.

(** A single code point over the budget comes back whole as the excess. *)
Definition returned_whole (c max_length : Z) : Prop :=
  is_scalar_value c = true → 0 ≤ max_length →
  (∃ bytes, encode_utf8 [c] = Some bytes
            ∧ max_length < Z.of_nat (length bytes)) →
  get_sendable_message [c] max_length = Return ([], [c]).

End SegmenterSpec.

(** ** An identifier factory for the examples *)

Module Fixtures.

Import Text Py.
Local Open Scope Z_scope.

(** ASCII case folding of one code point. *)
Definition ascii_lower (c : Z) : Z :=
  if (0x41 <=? c) && (c <=? 0x5A) then c + 0x20 else c.

(** U+00E9, two bytes in UTF-8. *)
Definition e_acute : Z := 0xE9.

(** Four accented letters separated by spaces: 7 code points, 11 bytes. *)
Definition accented_words : str :=
  [e_acute; SPACE; e_acute; SPACE; e_acute; SPACE; e_acute].

(** ["ab\tcd"]: a tab is its only whitespace. *)
Definition tabbed_word : str := py "ab" ++ [0x09] ++ py "cd".

(** In the examples an identifier is its folded text. *)
#[global] Instance str_folded : Folded str :=
  {| lowered := id; lowered_inj := λ x y Heq, Heq |}.

(** A factory whose identifiers are case-folded text: it folds a [str],
    keeps an identifier, and rejects any other key. *)
Definition folding_factory (k : pyobj str) : exception + str :=
  match k with
  | PStr s => inr (ascii_lower <$> s)
  | PIdentifier i => inr i
  | PInt _ | PList _ => inl AttributeError
  end.

(** [[1, 2]]: a key that cannot be hashed. *)
Definition list_key : pyobj str := PList [1; 2].

(** [SopelMemory()] *)
Definition empty_memory : SopelMemory.t str str :=
  {| SopelMemory.items := ∅; SopelMemory.lock := threading_Lock 0 |}.

(** [empty_memory] after a [__setitem__] that raised. *)
Definition stuck_memory : SopelMemory.t str str :=
  {| SopelMemory.items := ∅;
     SopelMemory.lock := {| lock_id := 0; locked := true |} |}.

(** What [SopelIdentifierMemory({k: v}, identifier_factory=folding_factory)]
    builds. *)
Definition seeded_memory (k : pyobj str) (v : str)
  : SopelIdentifierMemory.t str str :=
  {| SopelIdentifierMemory.base :=
       {| SopelMemory.items := <[k := v]> ∅;
          SopelMemory.lock := threading_Lock 0 |};
     SopelIdentifierMemory.make_identifier := folding_factory |}.

(** [SopelIdentifierMemory(identifier_factory=folding_factory)] *)
Definition empty_identifier_memory : SopelIdentifierMemory.t str str :=
  {| SopelIdentifierMemory.base := empty_memory;
     SopelIdentifierMemory.make_identifier := folding_factory |}.

End Fixtures.

(** ** More of Python's [str] *)

Module PyStr.

Import Text.
Local Open Scope Z_scope.

(** [text.startswith(prefix)] *)
Fixpoint startswith (text prefix : str) : bool :=
  match prefix, text with
  | [], _ => true
  | p :: prefix', c :: text' => (c =? p) && startswith text' prefix'
  | _ :: _, [] => false
  end.

(** Whether [str.replace] may still replace: [count] is [None] when the
    argument is left out, and then every occurrence is replaced. *)
Definition may_replace (count : option nat) : bool :=
  match count with
  | Some O => false
  | _ => true
  end.

(** [str.replace] from left to right over occurrences that do not
    overlap; [skip] code points of the text belong to the occurrence just
    replaced. *)
Fixpoint replace_from (skip : nat) (count : option nat) (old new text : str)
  : str :=
  match text with
  | [] => []
  | c :: rest =>
      match skip with
      | S skip' => replace_from skip' count old new rest
      | O =>
          if may_replace count && startswith text old then
            new ++ replace_from (length old - 1) (pred <$> count) old new rest
          else c :: replace_from 0 count old new rest
      end
  end.

(** [text.replace(old, new)] and [text.replace(old, new, count)], for an
    [old] that is not empty. *)
Definition replace (text old new : str) (count : option nat) : str :=
  replace_from 0 count old new text.

(** [str.isascii] on one code point. *)
Definition is_ascii (c : Z) : bool := (0 <=? c) && (c <? 0x80).

End PyStr.

(** ** get_hostmask_regex *)

Module Hostmask.

Import Text PyStr.
Local Open Scope Z_scope.

Definition BACKSLASH : Z := 0x5C.
Definition STAR : Z := 0x2A.

(** The characters that [re.escape] escapes: those of
    ["()[]{}?*+-|^$\\.&~# \t\n\r\v\f"]. *)
Definition special_chars : list Z :=
  py "()[]{}?*+-|^$\.&~# " ++ [0x09; 0x0A; 0x0D; 0x0B; 0x0C].

(** [re.escape] on one character. *)
Definition re_escape_char (c : Z) : str :=
  if bool_decide (c ∈ special_chars) then [BACKSLASH; c] else [c].

(** [re.escape(pattern)] *)
Definition re_escape (pattern : str) : str :=
  mjoin (re_escape_char <$> pattern).

(** The flags of a compiled pattern. *)
Inductive flag : Type := IGNORECASE.

(** A compiled pattern: its source text and its flags. *)
Record Pattern : Type := re_compile { pattern : str; flags : list flag }.

Definition get_hostmask_regex (mask : str) : Pattern :=
  let mask := re_escape mask in
  let mask := replace mask (py "\*") (py ".*") None in
  re_compile (mask ++ py "$") [IGNORECASE].

(** What a character of the mask stands for in the pattern: a star is the
    wildcard, any other character is itself. *)
Definition mask_char (c : Z) : str :=
  if c =? STAR then py ".*" else re_escape_char c.

End Hostmask.

(** ** get_logger and the logger of a deprecation warning *)

Module Logging.

Import Text PyStr.

(** A logger is known by its name: [logging.getLogger(name)]. *)
Definition get_logger (plugin_name : str) : str :=
  py "sopel.externals." ++ plugin_name.

(** [__name__] of the module. *)
Definition __name__ : str := py "sopel.tools".

(** The logger that [deprecated_func] warns on; [module] is the name of the
    module that [inspect.getmodule] found for the frame, if it found one. *)
Definition deprecation_logger (module : option str) : str :=
  match module with
  | Some module_name =>
      match module_name with
      | [] => __name__
      | _ :: _ =>
          if startswith module_name (py "sopel.") then module_name
          else
            let module_name :=
              if startswith module_name (py "sopel_modules.") then
                replace module_name (py "sopel_modules.") [] (Some 1%nat)
              else module_name in
            get_logger module_name
      end
  | None => __name__
  end.

End Logging.

(** ** chain_loaders *)

Module Loaders.

Section with_types.
Context {Settings Regex : Type}.

(** A lazy loader: called on the settings, it returns its regexes or
    raises. *)
Definition lazy_loader : Type := Settings → exception + list Regex.

(** The comprehension
    [[regex for lazy_loader in lazy_loaders for regex in lazy_loader(settings)]]:
    an exception in a loader ends it. *)
Fixpoint chained_loader (lazy_loaders : list lazy_loader)
  (settings : Settings) : exception + list Regex :=
  match lazy_loaders with
  | [] => inr []
  | loader :: rest =>
      match loader settings with
      | inl e => inl e
      | inr regexes =>
          match chained_loader rest settings with
          | inl e => inl e
          | inr regexes' => inr (regexes ++ regexes')
          end
      end
  end.

Definition chain_loaders (lazy_loaders : list lazy_loader) : lazy_loader :=
  chained_loader lazy_loaders.

End with_types.

End Loaders.

(** ** class SopelMemoryWithDefault(defaultdict) *)

Module SopelMemoryWithDefault.

Import Py.

Section with_types.
Context `{Countable Identifier} `{!Folded Identifier} {V : Type}
  `{EqDecision V}.

Abbreviation key := (pyobj Identifier).

(** An instance: its entries, [self.default_factory] ([None], or a
    callable that returns a value or raises) and [self.lock]. *)
Record t : Type := Make {
  items : pydict Identifier V;
  default_factory : option (() → exception + V);
  lock : Lock
}.

(** [self.lock.acquire()] *)
Definition lock_acquire : method t unit :=
  λ self,
    let '(r, l) := acquire (lock self) in
    (r, {| items := items self; default_factory := default_factory self;
           lock := l |}).

(** [self.lock.release()] *)
Definition lock_release : method t unit :=
  λ self,
    let '(r, l) := release (lock self) in
    (r, {| items := items self; default_factory := default_factory self;
           lock := l |}).

(** [defaultdict.__setitem__(self, key, value)], which is [dict]'s. *)
Definition defaultdict_setitem (k : key) (value : V) : method t unit :=
  λ self,
    match dict.__setitem__ (items self) k value with
    | inl e => (Raises e, self)
    | inr d => (Returns tt, {| items := d;
                               default_factory := default_factory self;
                               lock := lock self |})
    end.

(** [defaultdict.__contains__(self, key)], which is [dict]'s. *)
Definition defaultdict_contains (k : key) : method t bool :=
  λ self,
    match dict.__contains__ (items self) k with
    | inl e => (Raises e, self)
    | inr b => (Returns b, self)
    end.

(** [defaultdict.__init__] on the arguments, the first of which is the
    default factory, then [self.lock = threading.Lock()]. *)
Definition __init__ (lock_id : nat)
  (factory : option (() → exception + V)) (args : list (key * V))
  : exception + t :=
  match dict.__init__ args with
  | inl e => inl e
  | inr d => inr {| items := d; default_factory := factory;
                    lock := threading_Lock lock_id |}
  end.

Definition __setitem__ (k : key) (value : V) : method t unit :=
  _ ← lock_acquire;
  result ← defaultdict_setitem k value;
  _ ← lock_release;
  mret result.

Definition __contains__ (k : key) : method t bool :=
  _ ← lock_acquire;
  result ← defaultdict_contains k;
  _ ← lock_release;
  mret result.

(** [defaultdict.__missing__(self, key)]: [KeyError] without a factory;
    with one, its value is stored by [self[key] = value], which is the
    [__setitem__] above, and returned. *)
Definition __missing__ (k : key) : method t V :=
  λ self,
    match default_factory self with
    | None => (Raises KeyError, self)
    | Some factory =>
        match factory () with
        | inl e => (Raises e, self)
        | inr value => (_ ← __setitem__ k value; mret value) self
        end
    end.

(** [__getitem__] is not overridden: the lookup of [dict], which calls
    [__missing__] on a key that is absent. *)
Definition __getitem__ (k : key) : method t V :=
  λ self,
    if hashable k then
      match items self !! k with
      | Some v => (Returns v, self)
      | None => __missing__ k self
      end
    else (Raises TypeError, self).

End with_types.

Arguments t Identifier V : clear implicits.

End SopelMemoryWithDefault.

(** ** Callers of the memories *)

Module Calls.

Import Py.

Section with_types.
Context `{Countable Identifier} `{!Folded Identifier} {V : Type}
  `{EqDecision V}.

Abbreviation key := (pyobj Identifier).

(** One statement of a caller: [self[k] = v], [self[k]] or [k in self]. *)
Inductive call : Type :=
  | SetItem (k : key) (v : V)
  | GetItem (k : key)
  | Contains (k : key).

(** The instance that a statement on a [SopelMemory] leaves behind, whether
    it returned or raised. *)
Definition memory_after (c : call) (self : SopelMemory.t Identifier V)
  : SopelMemory.t Identifier V :=
  match c with
  | SetItem k v => (SopelMemory.__setitem__ k v self).2
  | GetItem k => (SopelMemory.__getitem__ k self).2
  | Contains k => (SopelMemory.__contains__ k self).2
  end.

(** The same on a [SopelIdentifierMemory]. *)
Definition identifier_memory_after (c : call)
  (self : SopelIdentifierMemory.t Identifier V)
  : SopelIdentifierMemory.t Identifier V :=
  match c with
  | SetItem k v => (SopelIdentifierMemory.__setitem__ k v self).2
  | GetItem k => (SopelIdentifierMemory.__getitem__ k self).2
  | Contains k => (SopelIdentifierMemory.__contains__ k self).2
  end.

(** A caller that runs statements one after the other and goes on after an
    exception. *)
Definition memory_after_all (cs : list call)
  (self : SopelMemory.t Identifier V) : SopelMemory.t Identifier V :=
  foldl (λ m c, memory_after c m) self cs.

Definition identifier_memory_after_all (cs : list call)
  (self : SopelIdentifierMemory.t Identifier V)
  : SopelIdentifierMemory.t Identifier V :=
  foldl (λ m c, identifier_memory_after c m) self cs.

(** The value of the last pair of [args] whose key is [==] to [k], if
    there is one. *)
Definition last_value (k : key) (args : list (key * V)) : option V :=
  foldl (λ found p,
           if decide (dict_key p.1 = dict_key k) then Some p.2 else found)
    None args.

(** The keys of a statement hash. *)
Definition call_hashable (c : call) : bool :=
  match c with
  | SetItem k _ | GetItem k | Contains k => hashable k
  end.

End with_types.

Arguments call Identifier V : clear implicits.

End Calls.

(** ** Instances of SopelMemoryWithDefault for the examples *)

Module DefaultFixtures.

Import Text Py.

(** [SopelMemoryWithDefault(lambda: 'x')] *)
Definition default_memory : SopelMemoryWithDefault.t str str :=
  {| SopelMemoryWithDefault.items := ∅;
     SopelMemoryWithDefault.default_factory := Some (λ _, inr (py "x"));
     SopelMemoryWithDefault.lock := threading_Lock 0 |}.

(** [SopelMemoryWithDefault()]: no factory. *)
Definition plain_memory : SopelMemoryWithDefault.t str str :=
  {| SopelMemoryWithDefault.items := ∅;
     SopelMemoryWithDefault.default_factory := None;
     SopelMemoryWithDefault.lock := threading_Lock 0 |}.

(** [SopelMemoryWithDefault(lambda: 'd', {'a': 'x'})] with its lock held. *)
Definition held_memory : SopelMemoryWithDefault.t str str :=
  {| SopelMemoryWithDefault.items := <[ PStr (py "a") := py "x" ]> ∅;
     SopelMemoryWithDefault.default_factory := Some (λ _, inr (py "d"));
     SopelMemoryWithDefault.lock := {| lock_id := 0; locked := true |} |}.

End DefaultFixtures.

(** * Properties *)

(** ** Text: encoding, slices and [rfind] *)

Module TextFacts.

Import Text.
Local Open Scope Z_scope.

Lemma utf8_encode_codepoint_scalar (c : Z) :
  is_scalar_value c = true →
  ∃ bs, utf8_encode_codepoint c = Some bs ∧ (1 ≤ length bs ≤ 4)%nat.
Proof.
  intros Hc. unfold utf8_encode_codepoint. rewrite Hc. simpl.
  repeat case_match; eexists; (split; [reflexivity | simpl; lia]).
Qed.

Lemma encode_utf8_well_formed (text : str) :
  well_formed text → ∃ bs, encode_utf8 text = Some bs.
Proof.
  induction 1 as [| c rest Hc _ [bs' IH]]; simpl.
  - by exists [].
  - destruct (utf8_encode_codepoint_scalar c Hc) as (bs & -> & _).
    rewrite IH. by eexists.
Qed.

Lemma encode_utf8_nonempty (text : str) (bs : list Z) :
  encode_utf8 text = Some bs → (0 < length bs)%nat → text ≠ [].
Proof. intros Henc Hlen ->. simpl in Henc. injection Henc as <-. simpl in Hlen. lia. Qed.

Lemma slice_index_range (len i : Z) :
  0 ≤ len → 0 ≤ slice_index len i ≤ len.
Proof. unfold slice_index. case_match; lia. Qed.

Lemma slice_index_nonneg (len i : Z) :
  0 ≤ i → slice_index len i = Z.min i len.
Proof. unfold slice_index. intros. case_match; [lia | done]. Qed.

Lemma length_slice_to (text : str) (stop : Z) :
  Z.of_nat (length (slice_to text stop))
  = slice_index (Z.of_nat (length text)) stop.
Proof.
  unfold slice_to. rewrite length_take.
  pose proof (slice_index_range (Z.of_nat (length text)) stop). lia.
Qed.

Lemma slice_to_from (text : str) (i : Z) :
  slice_to text i ++ slice_from text i = text.
Proof. apply take_drop. Qed.

Lemma well_formed_slice_to (text : str) (i : Z) :
  well_formed text → well_formed (slice_to text i).
Proof. apply Forall_take. Qed.

Lemma well_formed_slice_from (text : str) (i : Z) :
  well_formed text → well_formed (slice_from text i).
Proof. apply Forall_drop. Qed.

Lemma well_formed_lstrip (text : str) :
  well_formed text → well_formed (lstrip text).
Proof.
  induction 1 as [| c rest Hc Hrest IH]; simpl; [constructor |].
  case_match; [done | by constructor].
Qed.

Lemma last_index_in_None (text : str) (i c lo hi : Z) :
  last_index_in i text c lo hi = None →
  ∀ k : nat, lo ≤ i + Z.of_nat k < hi → text !! k ≠ Some c.
Proof.
  revert i. induction text as [| x rest IH]; intros i; simpl; [done |].
  destruct (last_index_in (i + 1) rest c lo hi) eqn:Hrest; [done |].
  intros Htest [| k] Hwin; simpl.
  - intros [= ->]. rewrite Z.eqb_refl in Htest. simpl in Htest.
    case_match eqn:Hw; [done |].
    apply andb_false_iff in Hw as [Hw | Hw]; lia.
  - apply (IH (i + 1)); [done | lia].
Qed.

(** What [last_index_in] finds is a position of [c] inside the window, and
    no later position of the window holds [c]. *)
Lemma last_index_in_Some (text : str) (i c lo hi j : Z) :
  last_index_in i text c lo hi = Some j →
  i ≤ j < i + Z.of_nat (length text) ∧ lo ≤ j < hi
  ∧ text !! Z.to_nat (j - i) = Some c
  ∧ ∀ k : nat, j < i + Z.of_nat k → i + Z.of_nat k < hi → text !! k ≠ Some c.
Proof.
  revert i. induction text as [| x rest IH]; intros i; simpl; [done |].
  destruct (last_index_in (i + 1) rest c lo hi) as [j' |] eqn:Hrest.
  - intros [= ->]. destruct (IH _ Hrest) as (Hj & Hwin & Hat & Hmax).
    repeat split; try lia.
    + replace (Z.to_nat (j - i)) with (S (Z.to_nat (j - (i + 1)))) by lia.
      done.
    + intros [| k] Hk Hhi; [lia |]. simpl. apply Hmax; lia.
  - case_match eqn:Htest; [| done]. intros [= <-].
    apply andb_prop in Htest as [Htest Hhi].
    apply andb_prop in Htest as [Hx Hlo].
    repeat split; try lia.
    + replace (Z.to_nat (i - i)) with 0%nat by lia. simpl. f_equal. lia.
    + intros [| k] Hk Hhi'; [lia |]. simpl.
      eapply (last_index_in_None rest (i + 1)); [done | lia].
Qed.

(** [rfind] from position 0: either [-1], and then [c] does not occur
    before the end of the window, or the last position before the end of the
    window that holds [c]. *)
Lemma rfind_spec (text : str) (c end_ : Z) :
  let stop := slice_index (Z.of_nat (length text)) end_ in
  (rfind text c 0 end_ = -1
   ∧ ∀ k : nat, Z.of_nat k < stop → text !! k ≠ Some c)
  ∨ (∃ j : nat,
       rfind text c 0 end_ = Z.of_nat j ∧ Z.of_nat j < stop
       ∧ text !! j = Some c
       ∧ ∀ k : nat, (j < k)%nat → Z.of_nat k < stop → text !! k ≠ Some c).
Proof.
  intros stop. unfold rfind.
  rewrite (slice_index_nonneg _ 0) by lia.
  replace (Z.min 0 (Z.of_nat (length text))) with 0 by lia.
  fold stop.
  destruct (last_index_in 0 text c 0 stop) as [j |] eqn:Hfind; simpl.
  - right. apply last_index_in_Some in Hfind as (Hj & Hwin & Hat & Hmax).
    exists (Z.to_nat j). rewrite Z.sub_0_r in Hat.
    repeat split; try lia; [done |].
    intros k Hk Hstop. apply Hmax; lia.
  - left. split; [done |]. intros k Hk.
    eapply last_index_in_None; [done | lia].
Qed.

End TextFacts.

(** ** get_sendable_message: the loop *)

Module SegmenterFacts.

Import Text Segmenter SegmenterSpec TextFacts.
Local Open Scope Z_scope.

Lemma loop_test_true (max_length : Z) (st : loop_state) :
  loop_test max_length st = Some true →
  ∃ bs, encode_utf8 (text st) = Some bs ∧ max_length < Z.of_nat (length bs).
Proof.
  unfold loop_test. destruct (encode_utf8 (text st)) as [bs |]; [| done].
  intros [= Hgt]. exists bs. split; [done | lia].
Qed.

Lemma loop_test_false (max_length : Z) (st : loop_state) :
  loop_test max_length st = Some false → within_budget (text st) max_length.
Proof.
  unfold loop_test, within_budget.
  destruct (encode_utf8 (text st)) as [bs |]; [| done].
  intros [= Hgt]. exists bs. split; [done | lia].
Qed.

Lemma loop_test_well_formed (max_length : Z) (st : loop_state) :
  well_formed (text st) → ∃ b, loop_test max_length st = Some b.
Proof.
  intros [bs Hbs]%encode_utf8_well_formed. unfold loop_test. rewrite Hbs.
  by eexists.
Qed.

Lemma is_space_true (c : Z) : is_space c = true ↔ c = SPACE.
Proof. unfold is_space. lia. Qed.

Lemma search_end_range (st : loop_state) :
  0 ≤ search_end st ≤ Z.of_nat (length (text st)).
Proof. apply slice_index_range. lia. Qed.

(** The two results of the search for the last space. *)
Lemma last_space_cases (st : loop_state) :
  (last_space st = -1 ∧ none_before is_space st)
  ∨ (∃ j : nat, last_space st = Z.of_nat j ∧ last_before is_space st j).
Proof.
  destruct (rfind_spec (text st) SPACE (unicode_max_length st))
    as [[Hnone Hall] | (j & Hj & Hstop & Hat & Hmax)].
  - left. split; [done |]. intros k c Hk Hc.
    destruct (is_space c) eqn:Hsp; [| done].
    apply is_space_true in Hsp as ->. by apply Hall in Hk.
  - right. exists j. split; [done |]. split; [done |]. split.
    + exists SPACE. split; [done |]. by apply is_space_true.
    + intros k c Hk Hstop' Hc.
      destruct (is_space c) eqn:Hsp; [| done].
      apply is_space_true in Hsp as ->. by apply (Hmax k) in Hc.
Qed.

Lemma slice_to_nat (text : str) (j : nat) :
  (j ≤ length text)%nat → slice_to text (Z.of_nat j) = take j text.
Proof.
  intros Hj. unfold slice_to. rewrite slice_index_nonneg by lia.
  f_equal. lia.
Qed.

Lemma slice_from_nat (text : str) (j : nat) :
  (j ≤ length text)%nat → slice_from text (Z.of_nat j) = drop j text.
Proof.
  intros Hj. unfold slice_from. rewrite slice_index_nonneg by lia.
  f_equal. lia.
Qed.

Lemma loop_body_hard_cut (st : loop_state) :
  last_space st = -1 →
  loop_body st =
    {| text := slice_to (text st) (unicode_max_length st);
       excess := slice_from (text st) (unicode_max_length st) ++ excess st;
       unicode_max_length := unicode_max_length st - 1 |}.
Proof. intros Hls. unfold loop_body. by rewrite Hls. Qed.

Lemma loop_body_space_cut (st : loop_state) (j : nat) :
  last_space st = Z.of_nat j → (j ≤ length (text st))%nat →
  loop_body st = cut_at st j.
Proof.
  intros Hls Hj. unfold loop_body, cut_at. rewrite Hls.
  replace (Z.of_nat j =? -1) with false by lia.
  by rewrite slice_to_nat, slice_from_nat.
Qed.

(** What an iteration does to the code points in hand: the hard cut keeps
    them all, the cut at a space keeps those of [text] and drops the excess
    it had. *)
Lemma loop_body_content (st : loop_state) :
  text (loop_body st) ++ excess (loop_body st)
  = match branch_taken st with
    | HardCut => text st ++ excess st
    | SpaceCut => text st
    end.
Proof.
  unfold loop_body, branch_taken.
  destruct (last_space st =? -1); simpl.
  - by rewrite app_assoc, slice_to_from.
  - apply slice_to_from.
Qed.

(** One iteration keeps the invariant and decreases the measure. *)
Lemma loop_body_progress (max_length : Z) (st : loop_state) :
  0 ≤ max_length → invariant max_length st →
  loop_test max_length st = Some true →
  invariant max_length (loop_body st)
  ∧ (measure (loop_body st) < measure st)%nat.
Proof.
  intros Hmax (Hwt & Hwe & Huml & Hlen) (bs & Hbs & Hgt)%loop_test_true.
  assert (text st ≠ []) as Hne by (eapply encode_utf8_nonempty; [done | lia]).
  assert (0 < length (text st))%nat as Hpos
    by (destruct (text st); [done | simpl; lia]).
  assert (0 ≤ unicode_max_length st) as Hnn by lia.
  pose proof (search_end_range st) as Hend.
  destruct (last_space_cases st) as [[Hls _] | (j & Hls & Hj & _)].
  - rewrite (loop_body_hard_cut st Hls). unfold invariant, measure. simpl.
    pose proof (length_slice_to (text st) (unicode_max_length st)) as Hl.
    rewrite slice_index_nonneg in Hl by done.
    split; [| lia].
    split; [by apply well_formed_slice_to |].
    split; [apply Forall_app; split; [by apply well_formed_slice_from | done] |].
    lia.
  - assert (j < length (text st))%nat as Hjl by lia.
    rewrite (loop_body_space_cut st j Hls) by lia.
    unfold invariant, measure, cut_at. simpl. rewrite length_take.
    split; [| lia].
    split; [by apply Forall_take |].
    split; [by apply Forall_drop |].
    lia.
Qed.

(** With enough fuel the loop returns, and what it returns is within the
    budget. *)
Lemma loop_returns (fuel : nat) (max_length : Z) (st : loop_state) :
  0 ≤ max_length → invariant max_length st → (measure st < fuel)%nat →
  ∃ sendable rest,
    loop fuel max_length st = Return (sendable, rest)
    ∧ within_budget sendable max_length
    ∧ well_formed sendable ∧ well_formed rest.
Proof.
  intros Hmax. revert st.
  induction fuel as [| fuel IH]; intros st Hinv Hfuel; [lia |].
  simpl. destruct (loop_test_well_formed max_length st) as [b Hb];
    [apply Hinv |].
  rewrite Hb. destruct b.
  - destruct (loop_body_progress max_length st Hmax Hinv Hb) as [Hinv' Hlt].
    apply IH; [done | lia].
  - exists (text st), (lstrip (excess st)).
    destruct Hinv as (Hwt & Hwe & _).
    split; [done |]. split; [by eapply loop_test_false |].
    split; [done | by apply well_formed_lstrip].
Qed.

(** More fuel does not change an answer. *)
Lemma loop_fuel_mono (fuel fuel' : nat) (max_length : Z) (st : loop_state)
  (r : str * str) :
  loop fuel max_length st = Return r → (fuel ≤ fuel')%nat →
  loop fuel' max_length st = Return r.
Proof.
  revert fuel' st. induction fuel as [| fuel IH]; intros fuel' st; [done |].
  destruct fuel' as [| fuel']; [lia |]. simpl.
  destruct (loop_test max_length st) as [[] |]; [| done | done].
  intros Hr Hle. apply IH; [done | lia].
Qed.

Lemma initial_state_invariant (text : str) (max_length : Z) :
  well_formed text → 0 ≤ max_length →
  invariant max_length (initial_state text max_length).
Proof.
  intros Hwf Hmax. unfold invariant, initial_state. simpl.
  split; [done |]. split; [constructor |]. lia.
Qed.

Lemma initial_state_measure (text : str) (max_length : Z) :
  (measure (initial_state text max_length) < enough_fuel text max_length)%nat.
Proof. unfold measure, enough_fuel, initial_state. simpl. lia. Qed.

(** The function returns on well-formed text and a budget that is not
    negative. *)
Lemma get_sendable_message_returns (text : str) (max_length : Z) :
  well_formed text → 0 ≤ max_length →
  ∃ sendable rest,
    get_sendable_message text max_length = Return (sendable, rest)
    ∧ within_budget sendable max_length
    ∧ well_formed sendable ∧ well_formed rest.
Proof.
  intros Hwf Hmax. apply loop_returns; [done | |].
  - by apply initial_state_invariant.
  - apply initial_state_measure.
Qed.

(** With a negative budget the loop does not stop. *)
Lemma loop_negative_budget (fuel : nat) (max_length : Z) (st : loop_state) :
  max_length < 0 → well_formed (text st) →
  loop fuel max_length st = OutOfFuel.
Proof.
  intros Hneg. revert st.
  induction fuel as [| fuel IH]; intros st Hwf; [done |].
  simpl. destruct (encode_utf8_well_formed _ Hwf) as [bs Hbs].
  unfold loop_test. rewrite Hbs.
  assert ((Z.of_nat (length bs) >? max_length) = true) as ->
    by (apply Z.gtb_lt; lia).
  apply IH. unfold loop_body.
  destruct (last_space st =? -1); by apply well_formed_slice_to.
Qed.

End SegmenterFacts.

(** ** get_sendable_message: the properties *)

Module SegmenterProperties.

Import Text Segmenter SegmenterSpec TextFacts SegmenterFacts Fixtures.
Local Open Scope Z_scope.

Lemma last_before_unique (p : Z → bool) (st : loop_state) (j j' : nat) :
  last_before p st j → last_before p st j' → j = j'.
Proof.
  intros (Hj & (c & Hc & Hp) & Hmax) (Hj' & (c' & Hc' & Hp') & Hmax').
  destruct (Nat.lt_trichotomy j j') as [Hlt | [-> | Hlt]]; [| done |].
  - specialize (Hmax j' c' Hlt Hj' Hc'). congruence.
  - specialize (Hmax' j c Hlt Hj Hc). congruence.
Qed.

(** C4, as amended: the boundary that an iteration looks for is the space
    U+0020 and no other whitespace.  On every state of the loop, the body
    cuts at the last space before the end of the search when there is one,
    and takes the hard cut only when no space lies before the end of the
    search.  Conversely, when no space lies before the end of the search
    the body takes the hard cut, whatever other whitespace (tab, newline)
    lies there; and a cut that is not the hard cut is at the last space. *)
Theorem space_boundary_search (st : loop_state) :
  boundary_search is_space st
  ∧ (none_before is_space st →
     branch_taken st = HardCut ∧ loop_body st = hard_cut st)
  ∧ (branch_taken st = SpaceCut →
     ∃ j, last_before is_space st j ∧ loop_body st = cut_at st j).
Proof.
  split; [split |].
  - intros j Hj.
    destruct (last_space_cases st) as [[_ Hnone] | (j' & Hls & Hj')].
    + destruct Hj as (Hend & (c & Hc & Hp) & _).
      specialize (Hnone j c Hend Hc). congruence.
    + assert (j = j') as <- by (by eapply last_before_unique).
      split.
      * unfold branch_taken. rewrite Hls.
        by replace (Z.of_nat j =? -1) with false by lia.
      * apply loop_body_space_cut; [done |].
        destruct Hj as (Hend & _). pose proof (search_end_range st). lia.
  - intros Hbranch.
    destruct (last_space_cases st) as [[_ Hnone] | (j' & Hls & _)]; [done |].
    unfold branch_taken in Hbranch. rewrite Hls in Hbranch.
    by replace (Z.of_nat j' =? -1) with false in Hbranch by lia.
  - split.
    + intros Hnone.
      destruct (last_space_cases st)
        as [[Hls _] | (j & _ & Hend & (c & Hc & Hp) & _)].
      * split; [| by apply loop_body_hard_cut].
        unfold branch_taken. by rewrite Hls.
      * specialize (Hnone j c Hend Hc). congruence.
    + intros Hbranch.
      destruct (last_space_cases st) as [[Hls _] | (j & Hls & Hj)].
      * unfold branch_taken in Hbranch. by rewrite Hls in Hbranch.
      * exists j. split; [done |]. apply loop_body_space_cut; [done |].
        destruct Hj as (Hend & _). pose proof (search_end_range st). lia.
Qed.

(** C4, as stated, fails: on ["ab\\tcd"] with a budget of 4 the loop is
    entered, a tab lies before the end of the search, and the iteration
    takes the hard cut all the same. *)
Lemma tab_is_not_a_boundary :
  loop_test 4 (initial_state tabbed_word 4) = Some true
  ∧ ¬ boundary_search is_whitespace (initial_state tabbed_word 4).
Proof.
  split; [reflexivity |]. intros [Hcut _].
  destruct (Hcut 2%nat) as [Hbranch _]; [| discriminate Hbranch].
  split; [reflexivity |]. split; [by exists 0x09 |].
  intros k c Hk Hend. change (search_end _) with 4 in Hend.
  assert (k = 3%nat) as -> by lia. by intros [= <-].
Qed.

(** C2: the code loses text.  On four accented letters separated by spaces
    and a budget of 4 bytes, the loop cuts at a space twice; the second
    cut replaces the excess of the first instead of being put in front of
    it, and two of the four letters are in neither part of the answer. *)
Theorem space_cut_discards_excess :
  well_formed accented_words
  ∧ excess (loop_body (initial_state accented_words 4))
    = [SPACE; e_acute; SPACE; e_acute]
  ∧ excess (loop_body (loop_body (initial_state accented_words 4)))
    = [SPACE; e_acute]
  ∧ get_sendable_message accented_words 4 = Return ([e_acute], [e_acute])
  ∧ ¬ reconstructs accented_words [e_acute] [e_acute].
Proof.
  split; [by repeat constructor |].
  split; [reflexivity |]. split; [reflexivity |]. split; [reflexivity |].
  intros (ws & Hws & Heq).
  destruct ws as [| w [| w' ws]]; [done | done |].
  unfold accented_words in Heq. simpl in Heq. injection Heq as _ <- _.
  apply Forall_cons in Hws as [_ Hws]. apply Forall_cons in Hws as [Hw _].
  discriminate Hw.
Qed.

(** C5: for well-formed text and a budget of at least 4 bytes, every call
    of a caller that goes on with the excess returns, and the sendable part
    it returns encodes to at most [max_length] bytes; call 0 is the call on
    the text itself. *)
Theorem sendable_within_budget (text : str) (max_length : Z) (n : nat) :
  well_formed text → 4 ≤ max_length →
  ∃ sendable rest,
    nth_call n text max_length = Return (sendable, rest)
    ∧ within_budget sendable max_length.
Proof.
  intros Hwf Hmax. revert text Hwf.
  induction n as [| n IH]; intros text Hwf; simpl.
  - destruct (get_sendable_message_returns text max_length)
      as (s & e & Hr & Hb & _); [done | lia |]. by exists s, e.
  - destruct (get_sendable_message_returns text max_length)
      as (s & e & -> & _ & _ & He); [done | lia |]. by apply IH.
Qed.

Lemma sendable_within_budget_witness :
  well_formed (py "The quick brown fox jumps") ∧ 4 ≤ 10
  ∧ ∃ sendable rest,
      nth_call 1 (py "The quick brown fox jumps") 10 = Return (sendable, rest)
      ∧ within_budget sendable 10.
Proof.
  assert (well_formed (py "The quick brown fox jumps")) as Hwf
    by (by repeat constructor).
  split; [exact Hwf |]. split; [lia |].
  apply (sendable_within_budget (py "The quick brown fox jumps") 10 1);
    [exact Hwf | lia].
Defined.

(** C6: on well-formed text and a budget that is not negative the loop
    terminates: one answer is returned for every amount of fuel from
    [enough_fuel] on.  An iteration that takes the hard cut lowers the
    working offset by one, an iteration that cuts at a space shortens the
    candidate, and the loop returns as soon as the candidate encodes to at
    most [max_length] bytes. *)
Theorem split_terminates (text : str) (max_length : Z) :
  well_formed text → 0 ≤ max_length →
  (∃ r, ∀ fuel, (enough_fuel text max_length ≤ fuel)%nat →
                get_sendable_message_fuel fuel text max_length = Return r)
  ∧ (∀ st, branch_taken st = HardCut →
           unicode_max_length (loop_body st) = unicode_max_length st - 1)
  ∧ (∀ st, branch_taken st = SpaceCut →
           (length (Segmenter.text (loop_body st))
            < length (Segmenter.text st))%nat)
  ∧ (∀ fuel st, within_budget (Segmenter.text st) max_length →
                loop (S fuel) max_length st
                = Return (Segmenter.text st, lstrip (excess st))).
Proof.
  intros Hwf Hmax. split; [| split; [| split]].
  - destruct (get_sendable_message_returns text max_length Hwf Hmax)
      as (s & e & Hr & _).
    exists (s, e). intros fuel Hfuel.
    by eapply loop_fuel_mono.
  - intros st. unfold branch_taken, loop_body.
    by destruct (last_space st =? -1).
  - intros st Hbranch.
    destruct (last_space_cases st) as [[Hls _] | (j & Hls & Hj & _)].
    + unfold branch_taken in Hbranch. by rewrite Hls in Hbranch.
    + pose proof (search_end_range st).
      rewrite (loop_body_space_cut st j Hls) by lia.
      unfold cut_at. simpl. rewrite length_take. lia.
  - intros fuel st (bs & Hbs & Hle). simpl. unfold loop_test. rewrite Hbs.
    by replace (Z.of_nat (length bs) >? max_length) with false by lia.
Qed.

Lemma split_terminates_witness :
  well_formed accented_words ∧ 0 ≤ 1
  ∧ ∃ r, ∀ fuel, (enough_fuel accented_words 1 ≤ fuel)%nat →
                 get_sendable_message_fuel fuel accented_words 1 = Return r.
Proof.
  assert (well_formed accented_words) as Hwf by (by repeat constructor).
  split; [exact Hwf |]. split; [lia |].
  destruct (split_terminates accented_words 1 Hwf) as [Hret _];
    [lia | exact Hret].
Defined.

Lemma loop_step_true (fuel : nat) (max_length : Z) (st : loop_state) :
  loop_test max_length st = Some true →
  loop (S fuel) max_length st = loop fuel max_length (loop_body st).
Proof. intros Ht. simpl. by rewrite Ht. Qed.

Lemma loop_step_false (fuel : nat) (max_length : Z) (st : loop_state) :
  loop_test max_length st = Some false →
  loop (S fuel) max_length st
  = Return (Segmenter.text st, lstrip (excess st)).
Proof. intros Ht. simpl. by rewrite Ht. Qed.

Lemma rfind_single_none (c : Z) (n : nat) :
  (c = SPACE → n = 0%nat) → rfind [c] SPACE 0 (Z.of_nat n) = -1.
Proof.
  intros Hc. unfold rfind. rewrite !slice_index_nonneg by lia. simpl.
  destruct (c =? SPACE) eqn:Heq; [| done].
  apply Z.eqb_eq in Heq. rewrite (Hc Heq). reflexivity.
Qed.

(** A text of one code point over the budget: the working offset goes
    down to 0 by hard cuts, and the last one moves the code point to the
    excess. *)
Lemma loop_single_codepoint (c max_length : Z) (bs : list Z) (n : nat) :
  0 ≤ max_length → encode_utf8 [c] = Some bs →
  max_length < Z.of_nat (length bs) → (c = SPACE → n = 0%nat) →
  loop (n + 2) max_length
    {| text := [c]; excess := []; unicode_max_length := Z.of_nat n |}
  = Return ([], lstrip [c]).
Proof.
  intros Hmax Hbs Hgt.
  assert (∀ e u, loop_test max_length
                   {| text := [c]; excess := e; unicode_max_length := u |}
                 = Some true) as Htest.
  { intros e u. unfold loop_test. cbn [Segmenter.text]. rewrite Hbs.
    f_equal. lia. }
  induction n as [| n IH]; intros Hc.
  - change (0 + 2)%nat with 2%nat. rewrite loop_step_true by apply Htest.
    rewrite loop_body_hard_cut by (by apply (rfind_single_none c 0)).
    cbn [Segmenter.text excess unicode_max_length].
    change (slice_to [c] (Z.of_nat 0)) with (@nil Z).
    rewrite loop_step_false; [reflexivity |].
    unfold loop_test. cbn [Segmenter.text encode_utf8 length]. f_equal.
    rewrite Z.gtb_ltb. apply Z.ltb_ge. simpl. lia.
  - change (S n + 2)%nat with (S (n + 2)).
    rewrite loop_step_true by apply Htest.
    rewrite loop_body_hard_cut by (by apply rfind_single_none).
    cbn [Segmenter.text excess unicode_max_length].
    assert (slice_index (Z.of_nat (length [c])) (Z.of_nat (S n)) = 1) as Hi.
    { rewrite slice_index_nonneg by lia. simpl length. lia. }
    unfold slice_to, slice_from. rewrite Hi.
    replace (Z.of_nat (S n) - 1) with (Z.of_nat n) by lia.
    apply IH. intros Heq. by apply Hc in Heq.
Qed.

(** C10, as amended: for a budget that is not negative and a text of one
    code point whose encoding is longer than the budget, the sendable part
    is empty (so within the budget), and the excess is the code point
    itself unless it is whitespace: a whitespace code point is stripped
    from the excess, which is then empty too. *)
Theorem single_codepoint_over_budget (c max_length : Z) :
  is_scalar_value c = true → 0 ≤ max_length →
  (∃ bytes, encode_utf8 [c] = Some bytes
            ∧ max_length < Z.of_nat (length bytes)) →
  get_sendable_message [c] max_length
  = Return ([], if is_whitespace c then [] else [c])
  ∧ within_budget [] max_length.
Proof.
  intros _ Hmax (bs & Hbs & Hgt). split.
  - assert (c = SPACE → Z.to_nat max_length = 0%nat) as Hsp.
    { intros ->. vm_compute in Hbs. injection Hbs as <-. simpl in Hgt. lia. }
    pose proof (loop_single_codepoint c max_length bs (Z.to_nat max_length)
                  Hmax Hbs Hgt Hsp) as Hloop.
    rewrite Z2Nat.id in Hloop by done.
    unfold get_sendable_message, get_sendable_message_fuel.
    eapply loop_fuel_mono in Hloop; [rewrite Hloop |].
    + f_equal.
    + unfold enough_fuel. simpl length. lia.
  - exists []. split; [done | simpl; lia].
Qed.

Lemma single_codepoint_over_budget_witness :
  is_scalar_value e_acute = true ∧ 0 ≤ 1
  ∧ get_sendable_message [e_acute] 1 = Return ([], [e_acute]).
Proof.
  split; [reflexivity |]. split; [lia |].
  destruct (single_codepoint_over_budget e_acute 1) as [Hret _];
    [reflexivity | lia | | exact Hret].
  exists [0xC3; 0xA9]. split; [reflexivity | simpl; lia].
Defined.

(** C10, as stated, fails on a space and a budget of 0: the space is one
    byte, over the budget, and the answer is two empty texts; the space is
    not returned as the excess. *)
Lemma space_is_not_returned : ¬ returned_whole SPACE 0.
Proof.
  intros Hclaim.
  assert (get_sendable_message [SPACE] 0 = Return ([], [SPACE])) as Hr.
  { apply Hclaim; [reflexivity | lia |].
    exists [0x20]. split; [reflexivity | simpl; lia]. }
  discriminate Hr.
Qed.

End SegmenterProperties.

(** ** dict: lookups after a store *)

Module PyDictFacts.

Import Text Py.

Section with_types.
Context `{Countable Identifier} `{!Folded Identifier} {V : Type}.

Implicit Types (d : pydict Identifier V) (k : pyobj Identifier).

Lemma pydict_lookup_unfold d k :
  d !! k = match dict_key k with
           | Some h => snd <$> entries d !! h
           | None => None
           end.
Proof. reflexivity. Qed.

Lemma pydict_insert_unfold d k (v : V) :
  <[k := v]> d
  = match dict_key k with
    | Some h =>
        PyDict (<[h := (match entries d !! h with
                        | Some (k0, _) => k0
                        | None => k
                        end, v)]> (entries d))
    | None => d
    end.
Proof. reflexivity. Qed.

Lemma hashable_dict_key k : hashable k = true → is_Some (dict_key k).
Proof. destruct k; naive_solver. Qed.

Lemma dict_key_hashable k : is_Some (dict_key k) → hashable k = true.
Proof. destruct k; simpl; [done | done | done | by intros [? ?]]. Qed.

Lemma lookup_pydict_empty k : (∅ : pydict Identifier V) !! k = None.
Proof.
  rewrite pydict_lookup_unfold. destruct (dict_key k); [| done].
  simpl. by rewrite lookup_empty.
Qed.

(** A key that is [==] to the key stored reads the value stored. *)
Lemma lookup_setitem_same d k k' (v : V) :
  hashable k = true → dict_key k' = dict_key k → <[k := v]> d !! k' = Some v.
Proof.
  intros [h Hh]%hashable_dict_key Hsame.
  rewrite pydict_lookup_unfold, pydict_insert_unfold, Hsame, Hh. simpl.
  by rewrite lookup_insert_eq.
Qed.

Lemma lookup_setitem_eq d k (v : V) :
  hashable k = true → <[k := v]> d !! k = Some v.
Proof. intros Hk. by apply lookup_setitem_same. Qed.

(** A key that is not [==] to the key stored reads as before. *)
Lemma lookup_setitem_other d k k' (v : V) :
  dict_key k' ≠ dict_key k → <[k := v]> d !! k' = d !! k'.
Proof.
  intros Hne. rewrite !pydict_lookup_unfold, pydict_insert_unfold.
  destruct (dict_key k) as [h |]; [| done].
  destruct (dict_key k') as [h' |]; [| done]. simpl.
  rewrite lookup_insert_ne; [done |]. by intros ->.
Qed.

Lemma lookup_contents d k (h : hkey) :
  dict_key k = Some h → d !! k = contents d !! h.
Proof.
  intros Hh. rewrite pydict_lookup_unfold, Hh. unfold contents.
  by rewrite lookup_fmap.
Qed.

(** Two [dict]s have the same values entry by entry exactly when every key
    reads the same in both. *)
Lemma contents_eq_lookup (d1 d2 : pydict Identifier V) :
  contents d1 = contents d2 ↔ ∀ k, d1 !! k = d2 !! k.
Proof.
  split.
  - intros Heq k. rewrite !pydict_lookup_unfold.
    destruct (dict_key k) as [h |]; [| done].
    pose proof (f_equal (λ m, m !! h) Heq) as Hh. simpl in Hh.
    unfold contents in Hh. by rewrite !lookup_fmap in Hh.
  - intros Hall. apply map_eq. intros h.
    destruct h as [s | n].
    + rewrite <- (lookup_contents d1 (PStr s)), <- (lookup_contents d2 (PStr s));
        done.
    + rewrite <- (lookup_contents d1 (PInt n)), <- (lookup_contents d2 (PInt n));
        done.
Qed.

Lemma dom_pydict_empty : dom (∅ : pydict Identifier V) = (∅ : gset _).
Proof.
  unfold dom, pydict_dom. simpl. rewrite fmap_empty. apply map_img_empty_L.
Qed.

Lemma elem_of_dom_pydict d k :
  k ∈ dom d ↔ ∃ h (v : V), entries d !! h = Some (k, v).
Proof.
  unfold dom, pydict_dom. rewrite elem_of_map_img. split.
  - intros [h Hh]. rewrite lookup_fmap in Hh.
    destruct (entries d !! h) as [[k0 v] |] eqn:Hd; [| done].
    injection Hh as <-. by exists h, v.
  - intros (h & v & Hh). exists h. by rewrite lookup_fmap, Hh.
Qed.

(** A store adds at most the key stored to the key objects held. *)
Lemma elem_of_dom_setitem d k k' (v : V) :
  k' ∈ dom (<[k := v]> d) → k' = k ∨ k' ∈ dom d.
Proof.
  rewrite !elem_of_dom_pydict, pydict_insert_unfold.
  destruct (dict_key k) as [h |]; [| by right].
  intros (h' & v' & Hh'). simpl in Hh'.
  destruct (decide (h = h')) as [<- | Hne].
  - rewrite lookup_insert_eq in Hh'.
    destruct (entries d !! h) as [[k0 v0] |] eqn:Hd.
    + injection Hh' as <- _. right. by exists h, v0.
    + injection Hh' as <- _. by left.
  - rewrite lookup_insert_ne in Hh' by done. right. by exists h', v'.
Qed.

(** A store under a key that the [dict] does not have holds that key
    object. *)
Lemma elem_of_dom_setitem_new d k (v : V) :
  hashable k = true → d !! k = None → k ∈ dom (<[k := v]> d).
Proof.
  intros [h Hh]%hashable_dict_key Hnone.
  rewrite pydict_lookup_unfold, Hh in Hnone.
  rewrite elem_of_dom_pydict, pydict_insert_unfold, Hh.
  exists h, v. simpl. rewrite lookup_insert_eq.
  by destruct (entries d !! h).
Qed.

End with_types.

(** Reads the fields of the instances written out as records, and leaves
    the [dict] operations as they are. *)
Ltac read_fields :=
  cbn [SopelIdentifierMemory.base SopelIdentifierMemory.make_identifier
       SopelMemory.items SopelMemory.lock
       SopelMemoryWithDefault.items SopelMemoryWithDefault.lock
       SopelMemoryWithDefault.default_factory fst snd] in *.

End PyDictFacts.

(** ** SopelMemory: the lock and the comparison *)

Module SopelMemoryFacts.

Import Text Py Fixtures PyDictFacts.

(** Lays a locked method out as its three calls in a row. *)
Ltac unfold_locked_method :=
  unfold SopelMemory.__setitem__, SopelMemory.__contains__,
    mbind, method_bind,
    SopelMemory.lock_acquire, SopelMemory.lock_release,
    SopelMemory.dict_setitem, SopelMemory.dict_contains,
    dict.__setitem__, dict.__contains__, acquire, release.

Section with_types.
Context `{Countable Identifier} `{!Folded Identifier} {V : Type}
  `{EqDecision V}.

Implicit Types (self : SopelMemory.t Identifier V) (k : pyobj Identifier).

Lemma unlocked_eta self :
  locked (SopelMemory.lock self) = false →
  {| SopelMemory.items := SopelMemory.items self;
     SopelMemory.lock :=
       {| lock_id := lock_id (SopelMemory.lock self); locked := false |} |}
  = self.
Proof. destruct self as [d [id held]]. simpl. by intros ->. Qed.

(** A [__setitem__] that finds the lock free and a key that hashes. *)
Lemma setitem_returns self k (v : V) :
  locked (SopelMemory.lock self) = false → hashable k = true →
  SopelMemory.__setitem__ k v self
  = (Returns tt,
     {| SopelMemory.items := <[k := v]> (SopelMemory.items self);
        SopelMemory.lock := SopelMemory.lock self |}).
Proof.
  destruct self as [d [id held]]. simpl. intros -> Hk.
  unfold_locked_method.
  simpl. rewrite Hk. reflexivity.
Qed.

(** A [__setitem__] that finds the lock free and a key that does not hash:
    the exception leaves with the lock held. *)
Lemma setitem_raises self k (v : V) :
  locked (SopelMemory.lock self) = false → hashable k = false →
  SopelMemory.__setitem__ k v self
  = (Raises TypeError,
     {| SopelMemory.items := SopelMemory.items self;
        SopelMemory.lock :=
          {| lock_id := lock_id (SopelMemory.lock self);
             locked := true |} |}).
Proof.
  destruct self as [d [id held]]. simpl. intros -> Hk.
  unfold_locked_method.
  simpl. rewrite Hk. reflexivity.
Qed.

(** Both locked methods wait for ever on a lock that is held. *)
Lemma setitem_blocks self k (v : V) :
  locked (SopelMemory.lock self) = true →
  SopelMemory.__setitem__ k v self = (Blocks, self).
Proof.
  destruct self as [d [id held]]. simpl. intros ->. reflexivity.
Qed.

Lemma contains_blocks self k :
  locked (SopelMemory.lock self) = true →
  SopelMemory.__contains__ k self = (Blocks, self).
Proof.
  destruct self as [d [id held]]. simpl. intros ->. reflexivity.
Qed.

Lemma contains_returns self k :
  locked (SopelMemory.lock self) = false → hashable k = true →
  SopelMemory.__contains__ k self
  = (Returns (bool_decide (is_Some (SopelMemory.items self !! k))), self).
Proof.
  destruct self as [d [id held]]. simpl. intros -> Hk.
  unfold_locked_method.
  simpl. rewrite Hk. reflexivity.
Qed.

Lemma getitem_returns self k (v : V) :
  hashable k = true → SopelMemory.items self !! k = Some v →
  SopelMemory.__getitem__ k self = (Returns v, self).
Proof.
  intros Hk Hv. unfold SopelMemory.__getitem__, dict.__getitem__.
  by rewrite Hk, Hv.
Qed.

(** C9: [__eq__] compares the entries and nothing else.  Two instances
    are equal exactly when they hold the same entries, that is when every
    key reads the same in both, and unequal exactly when they do not;
    putting any other lock in either instance changes neither the
    comparison nor [hash], which raises [TypeError] whatever the lock; and
    two instances built from the same arguments, each with its own new
    lock, are equal. *)
Theorem eq_ignores_lock (a b : SopelMemory.t Identifier V) :
  (SopelMemory.__eq__ a b = true
   ↔ ∀ k, SopelMemory.items a !! k = SopelMemory.items b !! k)
  ∧ (SopelMemory.__ne__ a b = true
     ↔ ¬ ∀ k, SopelMemory.items a !! k = SopelMemory.items b !! k)
  ∧ (∀ la lb : Lock,
       SopelMemory.__eq__
         {| SopelMemory.items := SopelMemory.items a; SopelMemory.lock := la |}
         {| SopelMemory.items := SopelMemory.items b; SopelMemory.lock := lb |}
       = SopelMemory.__eq__ a b
       ∧ SopelMemory.hash
           {| SopelMemory.items := SopelMemory.items a;
              SopelMemory.lock := la |}
         = SopelMemory.hash a
       ∧ SopelMemory.hash a = Raises TypeError)
  ∧ (∀ (args : list (pyobj Identifier * V)) (id1 id2 : nat),
       match SopelMemory.__init__ id1 args, SopelMemory.__init__ id2 args with
       | inr m1, inr m2 =>
           SopelMemory.lock m1 = threading_Lock id1
           ∧ SopelMemory.lock m2 = threading_Lock id2
           ∧ SopelMemory.__eq__ m1 m2 = true
       | inl e1, inl e2 => e1 = e2
       | _, _ => False
       end).
Proof.
  unfold SopelMemory.__eq__, SopelMemory.__ne__, dict.__ne__, dict.__eq__.
  split; [by rewrite bool_decide_eq_true, contents_eq_lookup |].
  split.
  { by rewrite negb_true_iff, bool_decide_eq_false, contents_eq_lookup. }
  split; [done |].
  intros args id1 id2. unfold SopelMemory.__init__.
  destruct (dict.__init__ args) as [e | d]; [done |]. simpl.
  split; [done |]. split; [done |]. by apply bool_decide_eq_true.
Qed.

End with_types.

(** C1: the code leaves the lock held.  [memory[[1, 2]] = 'x'] on a new
    [SopelMemory] raises [TypeError] from [dict.__setitem__], after
    [acquire] and before [release]; the instance is left with its lock
    held, and the next [__setitem__] and the next [__contains__] block. *)
Theorem setitem_leaves_lock_held :
  SopelMemory.__init__ 0 [] = inr empty_memory
  ∧ SopelMemory.__setitem__ list_key (py "x") empty_memory
    = (Raises TypeError, stuck_memory)
  ∧ locked (SopelMemory.lock stuck_memory) = true
  ∧ SopelMemory.__setitem__ (PStr (py "a")) (py "y") stuck_memory
    = (Blocks, stuck_memory)
  ∧ SopelMemory.__contains__ (PStr (py "a")) stuck_memory
    = (Blocks, stuck_memory).
Proof.
  split; [reflexivity |].
  split; [by apply (setitem_raises empty_memory) |].
  split; [reflexivity |].
  split; [by apply setitem_blocks | by apply contains_blocks].
Qed.

End SopelMemoryFacts.

(** ** SopelIdentifierMemory: keys through the factory *)

Module SopelIdentifierMemoryFacts.

Import Text Py Fixtures PyDictFacts SopelMemoryFacts.

(** Lays a method out as the call of the factory and the call through
    [super()]. *)
Ltac unfold_identifier_method :=
  unfold SopelIdentifierMemory.__getitem__,
    SopelIdentifierMemory.__contains__, SopelIdentifierMemory.__setitem__,
    mbind, method_bind, SopelIdentifierMemory.call_make_identifier.

Section with_types.
Context `{Countable Identifier} `{!Folded Identifier} {V : Type}
  `{EqDecision V}.

Implicit Types (self : SopelIdentifierMemory.t Identifier V)
  (k : pyobj Identifier).

Lemma super_unchanged {A} (c : method (SopelMemory.t Identifier V) A)
  self (r : result A) :
  c (SopelIdentifierMemory.base self) = (r, SopelIdentifierMemory.base self) →
  SopelIdentifierMemory.super c self = (r, self).
Proof.
  intros Hc. unfold SopelIdentifierMemory.super. rewrite Hc.
  by destruct self.
Qed.

(** A key that the factory rejects: the three methods raise what the
    factory raised and leave the instance as it was, its lock untouched. *)
Lemma rejected_key_raises self k (e : exception) :
  SopelIdentifierMemory.make_identifier self k = inl e →
  SopelIdentifierMemory.__getitem__ k self = (Raises e, self)
  ∧ SopelIdentifierMemory.__contains__ k self = (Raises e, self)
  ∧ ∀ v : V, SopelIdentifierMemory.__setitem__ k v self = (Raises e, self).
Proof.
  intros Hk.
  unfold_identifier_method. by rewrite Hk.
Qed.

(** A [__setitem__] that returns stores its value under the identifier of
    the key. *)
Lemma setitem_stores_identifier self k (v : V) (i : Identifier) :
  locked (SopelMemory.lock (SopelIdentifierMemory.base self)) = false →
  SopelIdentifierMemory.make_identifier self k = inr i →
  SopelIdentifierMemory.__setitem__ k v self
  = (Returns tt,
     {| SopelIdentifierMemory.base :=
          {| SopelMemory.items :=
               <[PIdentifier i := v]>
                 (SopelMemory.items (SopelIdentifierMemory.base self));
             SopelMemory.lock :=
               SopelMemory.lock (SopelIdentifierMemory.base self) |};
        SopelIdentifierMemory.make_identifier :=
          SopelIdentifierMemory.make_identifier self |}).
Proof.
  intros Hfree Hk.
  unfold_identifier_method. unfold SopelIdentifierMemory.super.
  rewrite Hk. by rewrite setitem_returns.
Qed.

(** [__setitem__] keeps every stored key a result of the factory, whatever
    it does. *)
Lemma setitem_keeps_normalized self self' k (v : V) (r : result unit) :
  (∀ k', k' ∈ SopelIdentifierMemory.stored_keys self →
         SopelIdentifierMemory.is_normalized self k') →
  SopelIdentifierMemory.__setitem__ k v self = (r, self') →
  ∀ k', k' ∈ SopelIdentifierMemory.stored_keys self' →
        SopelIdentifierMemory.is_normalized self' k'.
Proof.
  intros Hinv.
  unfold_identifier_method. unfold SopelIdentifierMemory.super.
  destruct (SopelIdentifierMemory.make_identifier self k) as [e | i] eqn:Hk.
  { by intros [= _ <-]. }
  destruct (locked (SopelMemory.lock (SopelIdentifierMemory.base self)))
    eqn:Hlock.
  - rewrite setitem_blocks by done. intros [= _ <-] k' Hk'.
    apply Hinv. by destruct self.
  - rewrite setitem_returns by done. intros [= _ <-] k'.
    unfold SopelIdentifierMemory.stored_keys,
      SopelIdentifierMemory.is_normalized. read_fields.
    intros [-> | Hk']%elem_of_dom_setitem; [by exists k, i |].
    by apply Hinv.
Qed.

(** C7: two raw keys with the same identifier name the same entry.  On an
    instance whose lock is free, [self[a] = v] returns, and then [self[b]]
    returns [v] and [b in self] returns [True], both leaving the instance as
    the assignment left it. *)
Theorem set_then_get self (a b : pyobj Identifier) (v : V) (i : Identifier) :
  locked (SopelMemory.lock (SopelIdentifierMemory.base self)) = false →
  SopelIdentifierMemory.make_identifier self a = inr i →
  SopelIdentifierMemory.make_identifier self b = inr i →
  ∃ self',
    SopelIdentifierMemory.__setitem__ a v self = (Returns tt, self')
    ∧ SopelIdentifierMemory.__getitem__ b self' = (Returns v, self')
    ∧ SopelIdentifierMemory.__contains__ b self' = (Returns true, self').
Proof.
  intros Hfree Ha Hb. eexists. split.
  { by apply setitem_stores_identifier. }
  unfold_identifier_method. read_fields. rewrite Hb. split.
  - apply super_unchanged. read_fields. apply getitem_returns; [done |].
    read_fields. by apply lookup_setitem_eq.
  - apply super_unchanged. read_fields. rewrite contains_returns by done.
    read_fields. by rewrite lookup_setitem_eq, bool_decide_eq_true_2.
Qed.

End with_types.

Lemma set_then_get_witness :
  locked (SopelMemory.lock
            (SopelIdentifierMemory.base empty_identifier_memory)) = false
  ∧ folding_factory (PStr (py "Exirel")) = inr (py "exirel")
  ∧ folding_factory (PStr (py "exirel")) = inr (py "exirel")
  ∧ ∃ self',
      SopelIdentifierMemory.__setitem__ (PStr (py "Exirel")) (py "king")
        empty_identifier_memory = (Returns tt, self')
      ∧ SopelIdentifierMemory.__getitem__ (PStr (py "exirel")) self'
        = (Returns (py "king"), self')
      ∧ SopelIdentifierMemory.__contains__ (PStr (py "exirel")) self'
        = (Returns true, self').
Proof.
  split; [reflexivity |]. split; [reflexivity |]. split; [reflexivity |].
  apply (set_then_get empty_identifier_memory (PStr (py "Exirel"))
           (PStr (py "exirel")) (py "king") (py "exirel"));
    reflexivity.
Defined.

(** C3: the constructor stores raw keys.
    [SopelIdentifierMemory({'Exirel': 'king'})] returns an instance that
    holds the [str] ['Exirel'] itself as a key, which is not an identifier
    that the factory returns; the entry is then out of reach:
    ['Exirel' in memory] is [False] and [memory['Exirel']] raises
    [KeyError]. *)
Theorem init_stores_raw_key :
  SopelIdentifierMemory.__init__ 0 [(PStr (py "Exirel"), py "king")]
    folding_factory
  = inr (seeded_memory (PStr (py "Exirel")) (py "king"))
  ∧ PStr (py "Exirel")
    ∈ SopelIdentifierMemory.stored_keys
        (seeded_memory (PStr (py "Exirel")) (py "king"))
  ∧ ¬ SopelIdentifierMemory.is_normalized
        (seeded_memory (PStr (py "Exirel")) (py "king"))
        (PStr (py "Exirel"))
  ∧ SopelIdentifierMemory.__contains__ (PStr (py "Exirel"))
      (seeded_memory (PStr (py "Exirel")) (py "king"))
    = (Returns false, seeded_memory (PStr (py "Exirel")) (py "king"))
  ∧ SopelIdentifierMemory.__getitem__ (PStr (py "Exirel"))
      (seeded_memory (PStr (py "Exirel")) (py "king"))
    = (Raises KeyError, seeded_memory (PStr (py "Exirel")) (py "king")).
Proof.
  split; [reflexivity |].
  split.
  { unfold SopelIdentifierMemory.stored_keys, seeded_memory. read_fields.
    apply elem_of_dom_setitem_new; [done | apply lookup_pydict_empty]. }
  split; [by intros (raw & i & _ & Heq) |].
  unfold_identifier_method. split.
  - apply super_unchanged. rewrite contains_returns by done.
    rewrite bool_decide_eq_false_2; [done |].
    unfold seeded_memory. read_fields.
    rewrite lookup_setitem_other by (by vm_compute).
    rewrite lookup_pydict_empty. by intros [? ?].
  - apply super_unchanged. unfold SopelMemory.__getitem__, dict.__getitem__.
    unfold seeded_memory. read_fields.
    rewrite lookup_setitem_other by (by vm_compute).
    by rewrite lookup_pydict_empty.
Qed.

(** C8: the constructor takes a key that the factory rejects.
    [SopelIdentifierMemory({1: 'error'})] returns an instance that holds the
    key [1], although the factory raises on [1] and [memory[1] = 'error']
    raises. *)
Theorem init_accepts_rejected_key :
  folding_factory (PInt 1) = inl AttributeError
  ∧ SopelIdentifierMemory.__init__ 0 [(PInt 1, py "error")] folding_factory
    = inr (seeded_memory (PInt 1) (py "error"))
  ∧ PInt 1
    ∈ SopelIdentifierMemory.stored_keys (seeded_memory (PInt 1) (py "error"))
  ∧ SopelIdentifierMemory.__setitem__ (PInt 1) (py "error")
      empty_identifier_memory
    = (Raises AttributeError, empty_identifier_memory).
Proof.
  split; [reflexivity |]. split; [reflexivity |]. split.
  - unfold SopelIdentifierMemory.stored_keys, seeded_memory. read_fields.
    apply elem_of_dom_setitem_new; [done | apply lookup_pydict_empty].
  - by apply rejected_key_raises.
Qed.

End SopelIdentifierMemoryFacts.

(** ** get_sendable_message: what the answer is made of *)

Module SegmenterAnswers.

Import Text PyStr Segmenter SegmenterSpec TextFacts SegmenterFacts Fixtures.
Local Open Scope Z_scope.

Lemma lstrip_split (t : str) :
  ∃ ws, Forall (λ c, is_whitespace c = true) ws ∧ t = ws ++ lstrip t.
Proof.
  induction t as [| c rest (ws & Hws & Heq)]; simpl.
  - by exists [].
  - destruct (is_whitespace c) eqn:Hc.
    + exists (c :: ws). split; [by constructor |]. simpl. by f_equal.
    + by exists [].
Qed.

Lemma lstrip_length (t : str) : (length (lstrip t) ≤ length t)%nat.
Proof.
  induction t as [| c rest IH]; simpl; [done |].
  destruct (is_whitespace c); simpl; lia.
Qed.

Lemma lstrip_head (t : str) (c : Z) :
  head (lstrip t) = Some c → is_whitespace c = false.
Proof.
  induction t as [| x rest IH]; simpl; [done |].
  destruct (is_whitespace x) eqn:Hx; [done |]. simpl. by intros [= <-].
Qed.

Lemma encode_utf8_ascii (t : str) :
  Forall (λ c, is_ascii c = true) t → encode_utf8 t = Some t.
Proof.
  induction 1 as [| c rest Hc _ IH]; simpl; [done |].
  rewrite IH. unfold is_ascii in Hc. apply andb_prop in Hc as [Hlo Hhi].
  unfold utf8_encode_codepoint, is_scalar_value.
  replace (0 <=? c) with true by lia. replace (c <? 0xD800) with true by lia.
  simpl. by rewrite Hhi.
Qed.

Lemma well_formed_ascii (t : str) :
  Forall (λ c, is_ascii c = true) t → well_formed t.
Proof.
  intros Hascii. eapply Forall_impl; [exact Hascii |].
  intros c Hc. unfold is_ascii in Hc.
  unfold is_scalar_value. apply andb_prop in Hc as [Hlo Hhi].
  replace (0 <=? c) with true by lia. by replace (c <? 0xD800) with true by lia.
Qed.

Lemma encode_utf8_length (t bs : str) :
  encode_utf8 t = Some bs → (length bs ≤ 4 * length t)%nat.
Proof.
  revert bs. induction t as [| c rest IH]; intros bs; simpl.
  - intros [= <-]. simpl. lia.
  - destruct (utf8_encode_codepoint c) as [b |] eqn:Hc; [| done].
    destruct (encode_utf8 rest) as [bs' |]; [| done].
    intros [= <-]. rewrite length_app. specialize (IH bs' eq_refl).
    assert (length b ≤ 4)%nat; [| lia].
    revert Hc. unfold utf8_encode_codepoint.
    repeat case_match; intros [= <-]; simpl; lia.
Qed.

Lemma encode_utf8_ill_formed (t : str) :
  Exists (λ c, is_scalar_value c = false) t → encode_utf8 t = None.
Proof.
  induction 1 as [c rest Hc | c rest _ IH]; simpl.
  - unfold utf8_encode_codepoint. by rewrite Hc.
  - rewrite IH. by destruct (utf8_encode_codepoint c).
Qed.

(** What the loop returns, read against the state it started from. *)
Lemma loop_answer (fuel : nat) (max_length : Z) (st : loop_state)
  (s e : str) :
  loop fuel max_length st = Return (s, e) →
  ∃ raw, e = lstrip raw ∧ (s ++ raw) `prefix_of` (text st ++ excess st).
Proof.
  revert st. induction fuel as [| fuel IH]; intros st; [done |].
  simpl. destruct (loop_test max_length st) as [[] |]; [| | done].
  - intros (raw & He & Hpre)%IH. exists raw. split; [done |].
    rewrite loop_body_content in Hpre.
    destruct (branch_taken st); [done |]. by apply prefix_app_r.
  - intros [= <- <-]. by exists (excess st).
Qed.

(** The loop is not entered when the text is within the budget. *)
Lemma get_sendable_message_fits (text : str) (max_length : Z) :
  within_budget text max_length →
  get_sendable_message text max_length = Return (text, []).
Proof.
  intros (bs & Hbs & Hle).
  unfold get_sendable_message, get_sendable_message_fuel, enough_fuel.
  rewrite Nat.add_1_r. simpl. unfold loop_test. simpl. rewrite Hbs.
  by replace (Z.of_nat (length bs) >? max_length) with false by lia.
Qed.

Lemma loop_result_fits (fuel : nat) (max_length : Z) (st : loop_state)
  (s e : str) :
  loop fuel max_length st = Return (s, e) → within_budget s max_length.
Proof.
  revert st. induction fuel as [| fuel IH]; intros st; [done |].
  simpl. destruct (loop_test max_length st) as [[] |] eqn:Htest;
    [apply IH | | done].
  intros [= <- _]. by eapply loop_test_false.
Qed.

(** X1: A text is returned whole exactly when it fits: the answer is the
    text itself, not stripped, with an empty excess if and only if the text
    encodes to at most [max_length] bytes. *)
Theorem short_text_unchanged (text : str) (max_length : Z) :
  within_budget text max_length
  ↔ get_sendable_message text max_length = Return (text, []).
Proof.
  split; [apply get_sendable_message_fits |].
  intros Hr. by eapply loop_result_fits.
Qed.

(** X2: The answer is cut out of the text in order: the sendable part, then
    whitespace, then the excess make up the text or a beginning of it.
    Nothing is added, moved or changed; text can only be missing at the
    end. *)
Theorem answer_is_prefix (text : str) (max_length : Z) :
  well_formed text → 0 ≤ max_length →
  ∃ sendable rest ws,
    get_sendable_message text max_length = Return (sendable, rest)
    ∧ Forall (λ c, is_whitespace c = true) ws
    ∧ (sendable ++ ws ++ rest) `prefix_of` text.
Proof.
  intros Hwf Hmax.
  destruct (get_sendable_message_returns text max_length Hwf Hmax)
    as (s & e & Hr & _).
  pose proof Hr as (raw & -> & Hpre)%loop_answer.
  destruct (lstrip_split raw) as (ws & Hws & Hraw).
  exists s, (lstrip raw), ws. split; [done |]. split; [done |].
  rewrite <- Hraw. simpl in Hpre. by rewrite app_nil_r in Hpre.
Qed.

Lemma answer_is_prefix_witness :
  well_formed accented_words ∧ 0 ≤ 4
  ∧ ∃ sendable rest ws,
      get_sendable_message accented_words 4 = Return (sendable, rest)
      ∧ Forall (λ c, is_whitespace c = true) ws
      ∧ (sendable ++ ws ++ rest) `prefix_of` accented_words.
Proof.
  assert (well_formed accented_words) as Hwf by (by repeat constructor).
  split; [exact Hwf |]. split; [lia |].
  apply (answer_is_prefix accented_words 4 Hwf). lia.
Defined.

(** X3: The excess of an answer never starts with whitespace. *)
Theorem excess_is_stripped (fuel : nat) (text : str) (max_length : Z)
  (sendable rest : str) (c : Z) :
  get_sendable_message_fuel fuel text max_length = Return (sendable, rest) →
  head rest = Some c → is_whitespace c = false.
Proof.
  intros (raw & -> & _)%loop_answer. apply lstrip_head.
Qed.

Lemma excess_is_stripped_witness :
  get_sendable_message_fuel 5 (py "The quick brown fox jumps") 10
  = Return (py "The quick", py "brown fox jumps")
  ∧ head (py "brown fox jumps") = Some 98
  ∧ is_whitespace 98 = false.
Proof.
  split; [reflexivity |]. split; [reflexivity |].
  apply (excess_is_stripped 5 (py "The quick brown fox jumps") 10
           (py "The quick") (py "brown fox jumps") 98); reflexivity.
Defined.

(** X4: On ASCII text nothing is lost: the sendable part and the excess are the
    text but for a run of whitespace between them. *)
Theorem ascii_text_is_kept (text : str) (max_length : Z) :
  Forall (λ c, is_ascii c = true) text → 0 ≤ max_length →
  ∃ sendable rest,
    get_sendable_message text max_length = Return (sendable, rest)
    ∧ reconstructs text sendable rest.
Proof.
  intros Hascii Hmax.
  pose proof (encode_utf8_ascii text Hascii) as Henc.
  destruct (decide (Z.of_nat (length text) ≤ max_length)) as [Hfit | Hover].
  { exists text, []. split.
    - apply get_sendable_message_fits. by exists text.
    - exists []. split; [constructor | by rewrite app_nil_r]. }
  set (st := initial_state text max_length).
  assert (loop_test max_length st = Some true) as Htest.
  { unfold loop_test, st. simpl. rewrite Henc. f_equal. lia. }
  assert (∀ cut : loop_state,
            Segmenter.text cut `prefix_of` text →
            Z.of_nat (length (Segmenter.text cut)) ≤ max_length →
            loop_test max_length cut = Some false) as Hexit.
  { intros cut [tail Htail] Hlen. unfold loop_test.
    rewrite (encode_utf8_ascii (Segmenter.text cut)).
    - f_equal. lia.
    - rewrite Htail in Hascii. by apply Forall_app in Hascii as [? _]. }
  unfold get_sendable_message, get_sendable_message_fuel, enough_fuel.
  fold st.
  replace (length text + Z.to_nat (max_length + 1) + 1)%nat
    with (S (S (length text + Z.to_nat (max_length + 1) - 1))) by lia.
  rewrite SegmenterProperties.loop_step_true by done.
  pose proof (search_end_range st) as Hend.
  assert (search_end st = max_length) as Hse.
  { unfold search_end, st. simpl. rewrite slice_index_nonneg by done. lia. }
  destruct (last_space_cases st) as [[Hls _] | (j & Hls & Hj & _)].
  - rewrite (loop_body_hard_cut st Hls).
    rewrite SegmenterProperties.loop_step_false.
    + unfold st. simpl. rewrite app_nil_r. eexists _, _.
      split; [reflexivity |].
      destruct (lstrip_split (slice_from text max_length)) as (ws & Hws & Heq).
      exists ws. split; [done |]. rewrite <- Heq. by rewrite slice_to_from.
    + apply Hexit; unfold st; simpl; [apply prefix_take |].
      rewrite length_slice_to, slice_index_nonneg by done. lia.
  - rewrite (loop_body_space_cut st j Hls) by lia.
    rewrite SegmenterProperties.loop_step_false.
    + unfold cut_at, st. simpl. eexists _, _. split; [reflexivity |].
      destruct (lstrip_split (drop j text)) as (ws & Hws & Heq).
      exists ws. split; [done |]. rewrite <- Heq. by rewrite take_drop.
    + apply Hexit; unfold cut_at, st; simpl; [apply prefix_take |].
      rewrite length_take. lia.
Qed.

Lemma ascii_text_is_kept_witness :
  Forall (λ c, is_ascii c = true) (py "The quick brown fox jumps") ∧ 0 ≤ 10
  ∧ ∃ sendable rest,
      get_sendable_message (py "The quick brown fox jumps") 10
      = Return (sendable, rest)
      ∧ reconstructs (py "The quick brown fox jumps") sendable rest.
Proof.
  assert (Forall (λ c, is_ascii c = true) (py "The quick brown fox jumps"))
    as Hascii by (by repeat constructor).
  split; [exact Hascii |]. split; [lia |].
  apply (ascii_text_is_kept _ 10 Hascii). lia.
Defined.

End SegmenterAnswers.

(** ** get_sendable_message: progress, and the inputs it does not answer *)

Module SegmenterProgress.

Import Text PyStr Segmenter SegmenterSpec TextFacts SegmenterFacts Fixtures.
Import SegmenterAnswers.
Local Open Scope Z_scope.

(** With a budget of 4 bytes or more, the candidate becomes empty only by
    a cut at a space that starts it; the excess then loses that space. *)
Lemma loop_excess_shorter (fuel : nat) (max_length : Z) (st : loop_state)
  (n0 : nat) (s e : str) :
  4 ≤ max_length → invariant max_length st →
  (text st ≠ [] ∧ (length (text st) + length (excess st) ≤ n0)%nat)
  ∨ (text st = [] ∧ (length (lstrip (excess st)) < n0)%nat) →
  loop fuel max_length st = Return (s, e) → (length e < n0)%nat.
Proof.
  intros Hmax. revert st.
  induction fuel as [| fuel IH]; intros st Hinv Hst; [done |].
  simpl. destruct (loop_test max_length st) as [[] |] eqn:Htest; [| | done].
  - destruct (loop_body_progress max_length st) as [Hinv' _];
      [lia | done | done |].
    apply IH; [done |].
    apply loop_test_true in Htest as (bs & Hbs & Hgt).
    pose proof (encode_utf8_length _ _ Hbs) as Hbytes.
    destruct Hst as [[Hne Hsum] | [Hnil _]];
      [| rewrite Hnil in Hbs; injection Hbs as <-; simpl in Hgt; lia].
    destruct Hinv as (_ & _ & Huml & Hlen).
    pose proof (search_end_range st) as Hend.
    destruct (last_space_cases st)
      as [[Hls _] | (j & Hls & (Hj & (c & Hc & Hsp) & _))].
    + rewrite (loop_body_hard_cut st Hls). simpl. left.
      assert (1 ≤ unicode_max_length st) as Hone by lia.
      pose proof (length_slice_to (text st) (unicode_max_length st)) as Hl.
      rewrite slice_index_nonneg in Hl by lia.
      split.
      * intros Hnil. rewrite Hnil in Hl. simpl in Hl.
        destruct (text st); [done | simpl in Hl; lia].
      * rewrite <- length_app, app_assoc, slice_to_from, length_app. lia.
    + rewrite (loop_body_space_cut st j Hls) by lia. unfold cut_at. simpl.
      destruct j as [| j].
      * right. split; [by rewrite take_0 |]. rewrite drop_0.
        destruct (text st) as [| x rest]; [done |].
        injection Hc as ->. apply is_space_true in Hsp as ->. simpl.
        pose proof (lstrip_length rest). simpl in Hsum. lia.
      * left. split.
        -- intros Hnil. apply (f_equal length) in Hnil.
           rewrite length_take in Hnil. change (length []) with 0%nat in Hnil.
           lia.
        -- rewrite <- length_app, take_drop. lia.
  - intros [= <- <-]. pose proof (lstrip_length (excess st)).
    destruct Hst as [[Hne Hsum] | [_ Hlt]]; [| done].
    destruct (text st); [done | simpl in Hsum; lia].
Qed.

(** X5: With a budget of 4 bytes or more, the excess is shorter than the text
    it was cut from. *)
Theorem excess_is_shorter (text : str) (max_length : Z) :
  well_formed text → 4 ≤ max_length → text ≠ [] →
  ∃ sendable rest,
    get_sendable_message text max_length = Return (sendable, rest)
    ∧ (length rest < length text)%nat.
Proof.
  intros Hwf Hmax Hne.
  destruct (get_sendable_message_returns text max_length)
    as (s & e & Hr & _); [done | lia |].
  exists s, e. split; [done |].
  eapply loop_excess_shorter; [done | | | exact Hr].
  - apply initial_state_invariant; [done | lia].
  - left. simpl. split; [done | lia].
Qed.

Lemma excess_is_shorter_witness :
  well_formed accented_words ∧ 4 ≤ 4 ∧ accented_words ≠ []
  ∧ ∃ sendable rest,
      get_sendable_message accented_words 4 = Return (sendable, rest)
      ∧ (length rest < length accented_words)%nat.
Proof.
  assert (well_formed accented_words) as Hwf by (by repeat constructor).
  split; [exact Hwf |]. split; [lia |]. split; [discriminate |].
  apply (excess_is_shorter accented_words 4 Hwf); [lia | discriminate].
Defined.

(** X6: With a budget of 4 bytes or more, a caller that sends the sendable
    part and calls again on the excess comes to an empty excess, after at
    most as many calls as the text has code points (one call for an empty
    text). *)
Theorem caller_finishes (text : str) (max_length : Z) :
  well_formed text → 4 ≤ max_length →
  ∃ (n : nat) (sendable : str),
    (n ≤ length text)%nat
    ∧ nth_call n text max_length = Return (sendable, []).
Proof.
  intros Hwf Hmax. remember (length text) as k eqn:Hk.
  assert (length text ≤ k)%nat as Hle by lia. clear Hk.
  revert text Hwf Hle. induction k as [| k IH]; intros text Hwf Hle.
  - destruct text; [| simpl in Hle; lia].
    exists 0%nat, []. split; [done |]. simpl.
    apply get_sendable_message_fits. exists []. split; [done | simpl; lia].
  - destruct (get_sendable_message_returns text max_length)
      as (s & e & Hr & _ & _ & Hwe); [done | lia |].
    destruct e as [| c e'].
    { exists 0%nat, s. split; [lia | done]. }
    assert (length (c :: e') < length text)%nat as Hlt.
    { destruct text as [| x text'].
      - rewrite get_sendable_message_fits in Hr by
          (exists []; split; [done | simpl; lia]). done.
      - eapply loop_excess_shorter; [done | | | exact Hr].
        + apply initial_state_invariant; [done | lia].
        + left. simpl. split; [done | lia]. }
    destruct (IH (c :: e') Hwe) as (n & s' & Hn & Hcall); [lia |].
    exists (S n), s'. split; [lia |]. simpl. by rewrite Hr.
Qed.

Lemma caller_finishes_witness :
  well_formed (py "The quick brown fox jumps") ∧ 4 ≤ 10
  ∧ ∃ (n : nat) (sendable : str),
      (n ≤ length (py "The quick brown fox jumps"))%nat
      ∧ nth_call n (py "The quick brown fox jumps") 10
        = Return (sendable, []).
Proof.
  assert (well_formed (py "The quick brown fox jumps")) as Hwf
    by (by repeat constructor).
  split; [exact Hwf |]. split; [lia |].
  apply (caller_finishes _ 10 Hwf). lia.
Defined.

(** X7: With a negative budget the call does not return: no amount of fuel
    gives an answer. *)
Theorem negative_budget_never_returns (fuel : nat) (text : str)
  (max_length : Z) :
  well_formed text → max_length < 0 →
  get_sendable_message_fuel fuel text max_length = OutOfFuel.
Proof. intros Hwf Hneg. by apply loop_negative_budget. Qed.

Lemma negative_budget_never_returns_witness :
  well_formed (py "ab") ∧ -1 < 0
  ∧ get_sendable_message_fuel 1000 (py "ab") (-1) = OutOfFuel.
Proof.
  assert (well_formed (py "ab")) as Hwf by (by repeat constructor).
  split; [exact Hwf |]. split; [lia |].
  apply (negative_budget_never_returns 1000 (py "ab") (-1) Hwf). lia.
Defined.

(** X8: A text that holds a surrogate code point is not split: the first test
    of the loop raises [UnicodeEncodeError], whatever the budget. *)
Theorem surrogate_raises (text : str) (max_length : Z) :
  Exists (λ c, is_scalar_value c = false) text →
  get_sendable_message text max_length = Raise UnicodeEncodeError.
Proof.
  intros Hbad%encode_utf8_ill_formed.
  unfold get_sendable_message, get_sendable_message_fuel, enough_fuel.
  rewrite Nat.add_1_r. simpl. unfold loop_test. simpl. by rewrite Hbad.
Qed.

Lemma surrogate_raises_witness :
  Exists (λ c, is_scalar_value c = false) [0x61; 0xD800]
  ∧ get_sendable_message [0x61; 0xD800] 400 = Raise UnicodeEncodeError.
Proof.
  assert (Exists (λ c, is_scalar_value c = false) [0x61; 0xD800]) as Hbad
    by (apply Exists_cons_tl, Exists_cons_hd; reflexivity).
  split; [exact Hbad |]. exact (surrogate_raises _ 400 Hbad).
Defined.

End SegmenterProgress.

(** ** SopelMemory: reads, writes and the constructor *)

Module SopelMemoryUse.

Import Text Py Fixtures PyDictFacts SopelMemoryFacts Calls.

Section with_types.
Context `{Countable Identifier} `{!Folded Identifier} {V : Type}
  `{EqDecision V}.

Implicit Types (self : SopelMemory.t Identifier V) (k : pyobj Identifier).

Lemma init_from_lookup (d : pydict Identifier V)
  (args : list (pyobj Identifier * V)) :
  Forall (λ p, hashable p.1 = true) args →
  ∃ d', dict.init_from d args = inr d'
        ∧ ∀ k, hashable k = true →
               d' !! k
               = foldl (λ found p,
                          if decide (dict_key p.1 = dict_key k)
                          then Some p.2 else found)
                   (d !! k) args.
Proof.
  intros Hargs. revert d.
  induction Hargs as [| [k0 v0] args Hk0 _ IH]; intros d; simpl.
  - by exists d.
  - simpl in Hk0. unfold dict.__setitem__. rewrite Hk0.
    destruct (IH (<[k0 := v0]> d)) as (d' & -> & Hd').
    exists d'. split; [done |]. intros k Hk. rewrite Hd' by done. f_equal.
    destruct (decide (dict_key k0 = dict_key k)) as [Hsame | Hother].
    + by apply lookup_setitem_same.
    + apply lookup_setitem_other. by intros Heq.
Qed.

Lemma init_from_unhashable (d : pydict Identifier V)
  (args : list (pyobj Identifier * V)) :
  Exists (λ p, hashable p.1 = false) args →
  dict.init_from d args = inl TypeError.
Proof.
  intros Hargs. revert d.
  induction Hargs as [[k v] args Hk | [k v] args _ IH]; intros d; simpl.
  - simpl in Hk. unfold dict.__setitem__. by rewrite Hk.
  - unfold dict.__setitem__. destruct (hashable k); [apply IH | done].
Qed.

Lemma getitem_unchanged self k : (SopelMemory.__getitem__ k self).2 = self.
Proof.
  unfold SopelMemory.__getitem__, dict.__getitem__.
  destruct (hashable k); [| done].
  by destruct (SopelMemory.items self !! k).
Qed.

(** X9: A write on a free lock with a key that hashes returns and leaves the
    lock free; the key then reads back as the value written and [in] finds
    it, as does every key that is [==] to it (a [str] and an identifier of
    that folded text), and every key that is not [==] to it reads as
    before. *)
Theorem setitem_then_read self k (v : V) :
  locked (SopelMemory.lock self) = false → hashable k = true →
  ∃ self',
    SopelMemory.__setitem__ k v self = (Returns tt, self')
    ∧ SopelMemory.lock self' = SopelMemory.lock self
    ∧ SopelMemory.__getitem__ k self' = (Returns v, self')
    ∧ SopelMemory.__contains__ k self' = (Returns true, self')
    ∧ (∀ k', dict_key k' = dict_key k →
             SopelMemory.__getitem__ k' self' = (Returns v, self'))
    ∧ (∀ k', dict_key k' ≠ dict_key k →
             SopelMemory.__getitem__ k' self'
             = ((SopelMemory.__getitem__ k' self).1, self')).
Proof.
  intros Hfree Hk. eexists. split; [by apply setitem_returns |].
  split; [done |]. split; [| split; [| split]].
  - apply getitem_returns; [done |]. read_fields.
    by apply lookup_setitem_eq.
  - rewrite contains_returns by done. read_fields.
    by rewrite lookup_setitem_eq, bool_decide_eq_true_2.
  - intros k' Hsame. apply getitem_returns.
    + apply dict_key_hashable. rewrite Hsame. by apply hashable_dict_key.
    + read_fields. by apply lookup_setitem_same.
  - intros k' Hne. unfold SopelMemory.__getitem__, dict.__getitem__.
    read_fields. rewrite lookup_setitem_other by done.
    destruct (hashable k'); [| done].
    by destruct (SopelMemory.items self !! k').
Qed.

(** X10: A read does not take the lock and changes nothing: [self[k]] leaves the
    instance as it was and gives the same result whoever holds the lock;
    on a key that hashes and is absent it raises [KeyError]. *)
Theorem getitem_without_lock self k (l : Lock) :
  (SopelMemory.__getitem__ k self).2 = self
  ∧ (SopelMemory.__getitem__ k
       {| SopelMemory.items := SopelMemory.items self;
          SopelMemory.lock := l |}).1
    = (SopelMemory.__getitem__ k self).1
  ∧ (hashable k = true → SopelMemory.items self !! k = None →
     (SopelMemory.__getitem__ k self).1 = Raises KeyError).
Proof.
  split; [apply getitem_unchanged |].
  unfold SopelMemory.__getitem__, dict.__getitem__. simpl. split.
  - destruct (hashable k); [| done].
    by destruct (SopelMemory.items self !! k).
  - by intros -> ->.
Qed.

(** X11: On a free lock, [k in self] changes nothing and says whether [self[k]]
    returns: it is [True] exactly when the read returns a value, and when
    it is [False] the read raises [KeyError]. *)
Theorem contains_tells_getitem self k :
  locked (SopelMemory.lock self) = false → hashable k = true →
  ∃ b : bool,
    SopelMemory.__contains__ k self = (Returns b, self)
    ∧ (b = true ↔ ∃ v, SopelMemory.__getitem__ k self = (Returns v, self))
    ∧ (b = false ↔ SopelMemory.__getitem__ k self = (Raises KeyError, self)).
Proof.
  intros Hfree Hk. eexists. split; [by apply contains_returns |].
  unfold SopelMemory.__getitem__, dict.__getitem__. rewrite Hk.
  destruct (SopelMemory.items self !! k) as [v |] eqn:Hv.
  - rewrite bool_decide_eq_true_2 by done. split; [| done].
    split; [by exists v | done].
  - rewrite bool_decide_eq_false_2 by (by intros [? ?]). split; [| done].
    split; [done | by intros [v [=]]].
Qed.

(** X12: The constructor on pairs whose keys all hash: the new instance has a
    lock of its own that is free, and every key reads in it as the value of
    the last pair whose key is [==] to it, and is absent when there is no
    such pair. *)
Theorem init_last_pair_wins (lock_id : nat)
  (args : list (pyobj Identifier * V)) :
  Forall (λ p, hashable p.1 = true) args →
  ∃ self,
    SopelMemory.__init__ lock_id args = inr self
    ∧ SopelMemory.lock self = threading_Lock lock_id
    ∧ ∀ k, hashable k = true →
           SopelMemory.items self !! k = last_value k args.
Proof.
  intros Hargs. unfold SopelMemory.__init__, dict.__init__.
  destruct (init_from_lookup ∅ args Hargs) as (d & -> & Hd).
  eexists. split; [reflexivity |]. split; [done |].
  intros k Hk. read_fields. rewrite Hd by done.
  by rewrite lookup_pydict_empty.
Qed.

(** X13: The constructor on pairs one of whose keys does not hash raises
    [TypeError]. *)
Theorem init_unhashable_raises (lock_id : nat)
  (args : list (pyobj Identifier * V)) :
  Exists (λ p, hashable p.1 = false) args →
  SopelMemory.__init__ lock_id args = inl TypeError.
Proof.
  intros Hargs. unfold SopelMemory.__init__, dict.__init__.
  by rewrite init_from_unhashable.
Qed.

Lemma memory_after_lock_free (c : call Identifier V) self :
  call_hashable c = true → locked (SopelMemory.lock self) = false →
  SopelMemory.lock (memory_after c self) = SopelMemory.lock self.
Proof.
  intros Hc Hfree. destruct c as [k v | k | k]; simpl in *.
  - by rewrite setitem_returns.
  - by rewrite getitem_unchanged.
  - by rewrite contains_returns.
Qed.

(** X14: As long as the keys hash, the lock is free between the statements of a
    caller: after any run of writes, reads and [in] tests from a free lock,
    the lock is the same lock and free. *)
Theorem lock_free_between_calls (cs : list (call Identifier V)) self :
  Forall (λ c, call_hashable c = true) cs →
  locked (SopelMemory.lock self) = false →
  SopelMemory.lock (memory_after_all cs self) = SopelMemory.lock self.
Proof.
  intros Hcs. revert self. unfold memory_after_all.
  induction Hcs as [| c cs Hc _ IH]; intros self Hfree; simpl; [done |].
  rewrite IH; rewrite memory_after_lock_free; done.
Qed.

End with_types.

Lemma setitem_then_read_witness :
  locked (SopelMemory.lock empty_memory) = false
  ∧ hashable (PStr (py "a") : pyobj str) = true
  ∧ ∃ self',
      SopelMemory.__setitem__ (PStr (py "a")) (py "x") empty_memory
      = (Returns tt, self')
      ∧ SopelMemory.__getitem__ (PStr (py "a")) self'
        = (Returns (py "x"), self').
Proof.
  split; [reflexivity |]. split; [reflexivity |].
  destruct (setitem_then_read empty_memory (PStr (py "a")) (py "x"))
    as (self' & Hset & _ & Hget & _); [reflexivity | reflexivity |].
  exists self'. split; [exact Hset | exact Hget].
Defined.

Lemma contains_tells_getitem_witness :
  locked (SopelMemory.lock empty_memory) = false
  ∧ hashable (PInt 7 : pyobj str) = true
  ∧ ∃ b : bool,
      SopelMemory.__contains__ (PInt 7) empty_memory
      = (Returns b, empty_memory).
Proof.
  split; [reflexivity |]. split; [reflexivity |].
  destruct (contains_tells_getitem empty_memory (PInt 7))
    as (b & Hb & _); [reflexivity | reflexivity |].
  exists b. exact Hb.
Defined.

Lemma init_last_pair_wins_witness :
  Forall (λ p : pyobj str * str, hashable p.1 = true)
    [(PStr (py "a"), py "x"); (PIdentifier (py "a"), py "y")]
  ∧ ∃ self,
      SopelMemory.__init__ 3
        [(PStr (py "a"), py "x"); (PIdentifier (py "a"), py "y")]
      = inr self
      ∧ SopelMemory.items self !! (PStr (py "a") : pyobj str)
        = Some (py "y").
Proof.
  assert (Forall (λ p : pyobj str * str, hashable p.1 = true)
            [(PStr (py "a"), py "x"); (PIdentifier (py "a"), py "y")])
    as Hargs by (by repeat constructor).
  split; [exact Hargs |].
  destruct (init_last_pair_wins 3 _ Hargs) as (self & Hinit & _ & Hread).
  exists self. split; [exact Hinit |].
  rewrite Hread by reflexivity. reflexivity.
Defined.

Lemma init_unhashable_raises_witness :
  Exists (λ p : pyobj str * str, hashable p.1 = false)
    [(PStr (py "a"), py "x"); (list_key, py "y")]
  ∧ SopelMemory.__init__ 3 [(PStr (py "a"), py "x"); (list_key, py "y")]
    = inl TypeError.
Proof.
  assert (Exists (λ p : pyobj str * str, hashable p.1 = false)
            [(PStr (py "a"), py "x"); (list_key, py "y")]) as Hargs
    by (apply Exists_cons_tl, Exists_cons_hd; reflexivity).
  split; [exact Hargs |]. exact (init_unhashable_raises 3 _ Hargs).
Defined.

Lemma lock_free_between_calls_witness :
  Forall (λ c : call str str, call_hashable c = true)
    [SetItem (PStr (py "a")) (py "x"); Contains (PInt 1); GetItem (PInt 2)]
  ∧ locked (SopelMemory.lock empty_memory) = false
  ∧ SopelMemory.lock
      (memory_after_all
         [SetItem (PStr (py "a")) (py "x"); Contains (PInt 1);
          GetItem (PInt 2)] empty_memory)
    = SopelMemory.lock empty_memory.
Proof.
  assert (Forall (λ c : call str str, call_hashable c = true)
            [SetItem (PStr (py "a")) (py "x"); Contains (PInt 1);
             GetItem (PInt 2)]) as Hcs by (by repeat constructor).
  split; [exact Hcs |]. split; [reflexivity |].
  apply (lock_free_between_calls _ empty_memory Hcs). reflexivity.
Defined.

End SopelMemoryUse.

(** ** SopelIdentifierMemory: what its callers can rely on *)

Module SopelIdentifierMemoryUse.

Import Text Py Fixtures PyDictFacts SopelMemoryFacts
  SopelIdentifierMemoryFacts Calls.
Import SopelMemoryUse.

Section with_types.
Context `{Countable Identifier} `{!Folded Identifier} {V : Type}
  `{EqDecision V}.

Implicit Types (self : SopelIdentifierMemory.t Identifier V)
  (k : pyobj Identifier).

(** A statement on an instance whose lock is free leaves the lock free. *)
Lemma identifier_memory_after_lock (c : call Identifier V) self :
  locked (SopelMemory.lock (SopelIdentifierMemory.base self)) = false →
  SopelMemory.lock
    (SopelIdentifierMemory.base (identifier_memory_after c self))
  = SopelMemory.lock (SopelIdentifierMemory.base self).
Proof.
  intros Hfree. destruct c as [k v | k | k]; simpl.
  - unfold_identifier_method. unfold SopelIdentifierMemory.super.
    destruct (SopelIdentifierMemory.make_identifier self k); [done |].
    by rewrite setitem_returns.
  - unfold_identifier_method. unfold SopelIdentifierMemory.super.
    destruct (SopelIdentifierMemory.make_identifier self k) as [e | i];
      [done |].
    pose proof (getitem_unchanged (SopelIdentifierMemory.base self)
                  (PIdentifier i)) as Hb.
    destruct (SopelMemory.__getitem__ (PIdentifier i)
                (SopelIdentifierMemory.base self)) as [r b].
    simpl in Hb. by subst b.
  - unfold_identifier_method. unfold SopelIdentifierMemory.super.
    destruct (SopelIdentifierMemory.make_identifier self k) as [e | i];
      [done |].
    by rewrite contains_returns.
Qed.

(** A statement keeps the stored keys results of the factory. *)
Lemma identifier_memory_after_normalized (c : call Identifier V) self :
  locked (SopelMemory.lock (SopelIdentifierMemory.base self)) = false →
  (∀ k, k ∈ SopelIdentifierMemory.stored_keys self →
        SopelIdentifierMemory.is_normalized self k) →
  ∀ k, k ∈ SopelIdentifierMemory.stored_keys (identifier_memory_after c self)
       → SopelIdentifierMemory.is_normalized
           (identifier_memory_after c self) k.
Proof.
  intros Hfree Hinv. destruct c as [k v | k | k]; simpl.
  - eapply setitem_keeps_normalized; [exact Hinv |]. apply surjective_pairing.
  - assert ((SopelIdentifierMemory.__getitem__ k self).2 = self) as ->; [| done].
    unfold_identifier_method.
    destruct (SopelIdentifierMemory.make_identifier self k) as [e | i];
      [done |].
    unfold SopelIdentifierMemory.super.
    pose proof (getitem_unchanged (SopelIdentifierMemory.base self)
                  (PIdentifier i)) as Hb.
    destruct (SopelMemory.__getitem__ (PIdentifier i)
                (SopelIdentifierMemory.base self)) as [r b].
    simpl in Hb. subst b. by destruct self.
  - assert ((SopelIdentifierMemory.__contains__ k self).2 = self) as ->;
      [| done].
    unfold_identifier_method.
    destruct (SopelIdentifierMemory.make_identifier self k) as [e | i];
      [done |].
    erewrite super_unchanged; [done |]. by apply contains_returns.
Qed.

Lemma identifier_memory_after_all_lock (cs : list (call Identifier V)) self :
  locked (SopelMemory.lock (SopelIdentifierMemory.base self)) = false →
  SopelMemory.lock
    (SopelIdentifierMemory.base (identifier_memory_after_all cs self))
  = SopelMemory.lock (SopelIdentifierMemory.base self).
Proof.
  revert self. unfold identifier_memory_after_all.
  induction cs as [| c cs IH]; intros self Hfree; simpl; [done |].
  rewrite IH; rewrite identifier_memory_after_lock; done.
Qed.

Lemma identifier_memory_after_all_normalized
  (cs : list (call Identifier V)) self :
  locked (SopelMemory.lock (SopelIdentifierMemory.base self)) = false →
  (∀ k, k ∈ SopelIdentifierMemory.stored_keys self →
        SopelIdentifierMemory.is_normalized self k) →
  ∀ k, k ∈ SopelIdentifierMemory.stored_keys
             (identifier_memory_after_all cs self)
       → SopelIdentifierMemory.is_normalized
           (identifier_memory_after_all cs self) k.
Proof.
  revert self. unfold identifier_memory_after_all.
  induction cs as [| c cs IH]; intros self Hfree Hinv; simpl; [done |].
  apply IH.
  - by rewrite identifier_memory_after_lock.
  - by apply identifier_memory_after_normalized.
Qed.

(** X15: Built without entries, an instance only ever stores results of its
    factory: after any run of writes, reads and [in] tests, with any keys,
    every stored key is an identifier that the factory returns. *)
Theorem writes_store_identifiers_only (cs : list (call Identifier V))
  (lock_id : nat)
  (identifier_factory : SopelIdentifierMemory.IdentifierFactory) self :
  SopelIdentifierMemory.__init__ lock_id [] identifier_factory = inr self →
  ∀ k, k ∈ SopelIdentifierMemory.stored_keys
             (identifier_memory_after_all cs self)
       → SopelIdentifierMemory.is_normalized
           (identifier_memory_after_all cs self) k.
Proof.
  intros [= <-]. apply identifier_memory_after_all_normalized; [done |].
  intros k. unfold SopelIdentifierMemory.stored_keys. read_fields.
  rewrite dom_pydict_empty. set_solver.
Qed.

(** X16: The lock of a [SopelIdentifierMemory] does not stay held: whatever the
    keys, a key that reaches the [dict] is an identifier, which hashes, and
    a key that the factory rejects raises before the lock is taken.  After
    any run of writes, reads and [in] tests from a free lock, the lock is
    free. *)
Theorem identifier_lock_stays_free (cs : list (call Identifier V)) self :
  locked (SopelMemory.lock (SopelIdentifierMemory.base self)) = false →
  locked (SopelMemory.lock
            (SopelIdentifierMemory.base
               (identifier_memory_after_all cs self))) = false.
Proof. intros Hfree. by rewrite identifier_memory_after_all_lock. Qed.

(** X17: A key that the factory rejects changes nothing: reading it, writing it
    and testing it raise the exception of the factory and leave the entries
    and the lock as they were. *)
Theorem rejected_key_changes_nothing self k (v : V) (e : exception) :
  SopelIdentifierMemory.make_identifier self k = inl e →
  SopelIdentifierMemory.__getitem__ k self = (Raises e, self)
  ∧ SopelIdentifierMemory.__contains__ k self = (Raises e, self)
  ∧ SopelIdentifierMemory.__setitem__ k v self = (Raises e, self).
Proof.
  intros Hk. destruct (rejected_key_raises self k e Hk) as (Hg & Hc & Hs).
  by rewrite Hg, Hc, Hs.
Qed.

(** X18: A write under one identifier does not touch another: when [a] and [b]
    have different identifiers, [self[a] = v] leaves [self[b]] and
    [b in self] as they were. *)
Theorem setitem_other_identifier self (a b : pyobj Identifier) (v : V)
  (ia ib : Identifier) :
  locked (SopelMemory.lock (SopelIdentifierMemory.base self)) = false →
  SopelIdentifierMemory.make_identifier self a = inr ia →
  SopelIdentifierMemory.make_identifier self b = inr ib →
  ia ≠ ib →
  ∃ self',
    SopelIdentifierMemory.__setitem__ a v self = (Returns tt, self')
    ∧ (SopelIdentifierMemory.__getitem__ b self').1
      = (SopelIdentifierMemory.__getitem__ b self).1
    ∧ (SopelIdentifierMemory.__contains__ b self').1
      = (SopelIdentifierMemory.__contains__ b self).1.
Proof.
  intros Hfree Ha Hb Hne. eexists.
  split; [by apply setitem_stores_identifier |].
  assert (dict_key (PIdentifier ib : pyobj Identifier)
          ≠ dict_key (PIdentifier ia)) as Hkeys.
  { simpl. intros [= Heq%lowered_inj]. by apply Hne. }
  unfold_identifier_method. read_fields. rewrite Hb.
  unfold SopelIdentifierMemory.super. split.
  - unfold SopelMemory.__getitem__, dict.__getitem__. read_fields.
    rewrite lookup_setitem_other by done.
    by destruct (SopelMemory.items (SopelIdentifierMemory.base self)
                 !! PIdentifier ib).
  - rewrite !contains_returns by done. read_fields.
    by rewrite lookup_setitem_other by done.
Qed.

End with_types.

Lemma writes_store_identifiers_only_witness :
  SopelIdentifierMemory.__init__ 0 [] folding_factory
  = inr empty_identifier_memory
  ∧ ∀ k, k ∈ SopelIdentifierMemory.stored_keys
               (identifier_memory_after_all
                  [SetItem (PStr (py "Exirel")) (py "king");
                   SetItem (PInt 1) (py "error");
                   Contains (PStr (py "exirel"))]
                  empty_identifier_memory)
         → SopelIdentifierMemory.is_normalized
             (identifier_memory_after_all
                [SetItem (PStr (py "Exirel")) (py "king");
                 SetItem (PInt 1) (py "error");
                 Contains (PStr (py "exirel"))]
                empty_identifier_memory) k.
Proof.
  split; [reflexivity |].
  apply (writes_store_identifiers_only _ 0 folding_factory
           empty_identifier_memory).
  reflexivity.
Defined.

Lemma identifier_lock_stays_free_witness :
  locked (SopelMemory.lock
            (SopelIdentifierMemory.base empty_identifier_memory)) = false
  ∧ locked (SopelMemory.lock
              (SopelIdentifierMemory.base
                 (identifier_memory_after_all
                    [SetItem list_key (py "x");
                     SetItem (PStr (py "Exirel")) (py "king")]
                    empty_identifier_memory))) = false.
Proof.
  split; [reflexivity |].
  apply (identifier_lock_stays_free _ empty_identifier_memory).
  reflexivity.
Defined.

Lemma rejected_key_changes_nothing_witness :
  folding_factory (PInt 1) = inl AttributeError
  ∧ SopelIdentifierMemory.__setitem__ (PInt 1) (py "error")
      empty_identifier_memory
    = (Raises AttributeError, empty_identifier_memory).
Proof.
  split; [reflexivity |].
  destruct (rejected_key_changes_nothing empty_identifier_memory (PInt 1)
              (py "error") AttributeError) as (_ & _ & Hset);
    [reflexivity | exact Hset].
Defined.

Lemma setitem_other_identifier_witness :
  locked (SopelMemory.lock
            (SopelIdentifierMemory.base empty_identifier_memory)) = false
  ∧ folding_factory (PStr (py "Exirel")) = inr (py "exirel")
  ∧ folding_factory (PStr (py "dgw")) = inr (py "dgw")
  ∧ py "exirel" ≠ py "dgw"
  ∧ ∃ self',
      SopelIdentifierMemory.__setitem__ (PStr (py "Exirel")) (py "king")
        empty_identifier_memory = (Returns tt, self')
      ∧ (SopelIdentifierMemory.__contains__ (PStr (py "dgw")) self').1
        = (SopelIdentifierMemory.__contains__ (PStr (py "dgw"))
             empty_identifier_memory).1.
Proof.
  split; [reflexivity |]. split; [reflexivity |]. split; [reflexivity |].
  split; [discriminate |].
  destruct (setitem_other_identifier empty_identifier_memory
              (PStr (py "Exirel")) (PStr (py "dgw")) (py "king")
              (py "exirel") (py "dgw"))
    as (self' & Hset & _ & Hin);
    [reflexivity | reflexivity | reflexivity | discriminate |].
  exists self'. split; [exact Hset | exact Hin].
Defined.

End SopelIdentifierMemoryUse.

(** ** SopelMemoryWithDefault: reads that store a default *)

Module SopelMemoryWithDefaultUse.

Import Text Py Fixtures DefaultFixtures PyDictFacts.

(** Lays a locked method out as its three calls in a row. *)
Ltac unfold_default_method :=
  unfold SopelMemoryWithDefault.__setitem__,
    SopelMemoryWithDefault.__contains__, mbind, method_bind,
    SopelMemoryWithDefault.lock_acquire, SopelMemoryWithDefault.lock_release,
    SopelMemoryWithDefault.defaultdict_setitem,
    SopelMemoryWithDefault.defaultdict_contains,
    dict.__setitem__, dict.__contains__, acquire, release.

Section with_types.
Context `{Countable Identifier} `{!Folded Identifier} {V : Type}
  `{EqDecision V}.

Implicit Types (self : SopelMemoryWithDefault.t Identifier V)
  (k : pyobj Identifier).

Lemma default_setitem_returns self k (v : V) :
  locked (SopelMemoryWithDefault.lock self) = false → hashable k = true →
  SopelMemoryWithDefault.__setitem__ k v self
  = (Returns tt,
     {| SopelMemoryWithDefault.items :=
          <[k := v]> (SopelMemoryWithDefault.items self);
        SopelMemoryWithDefault.default_factory :=
          SopelMemoryWithDefault.default_factory self;
        SopelMemoryWithDefault.lock := SopelMemoryWithDefault.lock self |}).
Proof.
  destruct self as [d f [id held]]. simpl. intros -> Hk.
  unfold_default_method. simpl. rewrite Hk. reflexivity.
Qed.

Lemma default_setitem_blocks self k (v : V) :
  locked (SopelMemoryWithDefault.lock self) = true →
  SopelMemoryWithDefault.__setitem__ k v self = (Blocks, self).
Proof. destruct self as [d f [id held]]. simpl. intros ->. reflexivity. Qed.

Lemma default_contains_returns self k :
  locked (SopelMemoryWithDefault.lock self) = false → hashable k = true →
  SopelMemoryWithDefault.__contains__ k self
  = (Returns (bool_decide (is_Some (SopelMemoryWithDefault.items self !! k))),
     self).
Proof.
  destruct self as [d f [id held]]. simpl. intros -> Hk.
  unfold_default_method. simpl. rewrite Hk. reflexivity.
Qed.

(** X19: A read stores the default, a test does not.  On a free lock, for an
    absent key and a factory that returns [v]: [k in self] is [False] and
    changes nothing; [self[k]] returns [v], stores it under the key and
    leaves the lock free; after it, [self[k]] returns [v] again, now without
    a change, and [k in self] is [True]. *)
Theorem missing_key_stores_default self k (v : V)
  (factory : () → exception + V) :
  locked (SopelMemoryWithDefault.lock self) = false → hashable k = true →
  SopelMemoryWithDefault.items self !! k = None →
  SopelMemoryWithDefault.default_factory self = Some factory →
  factory () = inr v →
  SopelMemoryWithDefault.__contains__ k self = (Returns false, self)
  ∧ ∃ self',
      SopelMemoryWithDefault.__getitem__ k self = (Returns v, self')
      ∧ SopelMemoryWithDefault.items self'
        = <[k := v]> (SopelMemoryWithDefault.items self)
      ∧ SopelMemoryWithDefault.lock self' = SopelMemoryWithDefault.lock self
      ∧ SopelMemoryWithDefault.__getitem__ k self' = (Returns v, self')
      ∧ SopelMemoryWithDefault.__contains__ k self' = (Returns true, self').
Proof.
  intros Hfree Hk Hnone Hf Hv. split.
  { rewrite default_contains_returns by done.
    by rewrite bool_decide_eq_false_2 by (rewrite Hnone; by intros [? ?]). }
  eexists. split; [| split; [| split; [| split]]].
  - unfold SopelMemoryWithDefault.__getitem__,
      SopelMemoryWithDefault.__missing__.
    rewrite Hk, Hnone, Hf, Hv. unfold mbind, method_bind.
    by rewrite default_setitem_returns.
  - done.
  - done.
  - unfold SopelMemoryWithDefault.__getitem__. rewrite Hk. read_fields.
    by rewrite lookup_setitem_eq.
  - rewrite default_contains_returns by done. read_fields.
    by rewrite lookup_setitem_eq, bool_decide_eq_true_2.
Qed.

(** X20: While the lock is held, a read of a key that is present returns its
    value, and a read of a key that is absent blocks when there is a factory
    that returns a value: the default is stored with [__setitem__], which
    waits for the lock. *)
Theorem held_lock_blocks_missing_read self k k' (v v' : V)
  (factory : () → exception + V) :
  locked (SopelMemoryWithDefault.lock self) = true →
  hashable k = true → hashable k' = true →
  SopelMemoryWithDefault.items self !! k = Some v →
  SopelMemoryWithDefault.items self !! k' = None →
  SopelMemoryWithDefault.default_factory self = Some factory →
  factory () = inr v' →
  SopelMemoryWithDefault.__getitem__ k self = (Returns v, self)
  ∧ SopelMemoryWithDefault.__getitem__ k' self = (Blocks, self).
Proof.
  intros Hheld Hk Hk' Hv Hnone Hf Hv'.
  unfold SopelMemoryWithDefault.__getitem__,
    SopelMemoryWithDefault.__missing__.
  rewrite Hk, Hk', Hv, Hnone, Hf, Hv'. split; [done |].
  unfold mbind, method_bind. by rewrite default_setitem_blocks.
Qed.

(** X21: A read of an absent key with no default to give -- no factory, or a
    factory that raises -- raises ([KeyError], or what the factory raised)
    and stores nothing. *)
Theorem missing_key_without_default self k :
  hashable k = true → SopelMemoryWithDefault.items self !! k = None →
  match SopelMemoryWithDefault.default_factory self with
  | None =>
      SopelMemoryWithDefault.__getitem__ k self = (Raises KeyError, self)
  | Some factory =>
      ∀ e, factory () = inl e →
           SopelMemoryWithDefault.__getitem__ k self = (Raises e, self)
  end.
Proof.
  intros Hk Hnone.
  unfold SopelMemoryWithDefault.__getitem__,
    SopelMemoryWithDefault.__missing__.
  rewrite Hk, Hnone.
  destruct (SopelMemoryWithDefault.default_factory self) as [factory |];
    [| done].
  by intros e ->.
Qed.

End with_types.

Lemma missing_key_stores_default_witness :
  locked (SopelMemoryWithDefault.lock default_memory) = false
  ∧ SopelMemoryWithDefault.items default_memory !! PStr (py "a") = None
  ∧ ∃ self',
      SopelMemoryWithDefault.__getitem__ (PStr (py "a")) default_memory
      = (Returns (py "x"), self')
      ∧ SopelMemoryWithDefault.__contains__ (PStr (py "a")) self'
        = (Returns true, self').
Proof.
  split; [reflexivity |]. split; [apply lookup_pydict_empty |].
  destruct (missing_key_stores_default default_memory (PStr (py "a"))
              (py "x") (λ _, inr (py "x")))
    as (_ & self' & Hget & _ & _ & _ & Hin);
    [reflexivity | reflexivity | apply lookup_pydict_empty | reflexivity
    | reflexivity |].
  exists self'. split; [exact Hget | exact Hin].
Defined.

Lemma held_lock_blocks_missing_read_witness :
  locked (SopelMemoryWithDefault.lock held_memory) = true
  ∧ SopelMemoryWithDefault.__getitem__ (PStr (py "a")) held_memory
    = (Returns (py "x"), held_memory)
  ∧ SopelMemoryWithDefault.__getitem__ (PStr (py "b")) held_memory
    = (Blocks, held_memory).
Proof.
  split; [reflexivity |].
  apply (held_lock_blocks_missing_read held_memory (PStr (py "a"))
           (PStr (py "b")) (py "x") (py "d") (λ _, inr (py "d")));
    [reflexivity | reflexivity | reflexivity
    | by apply lookup_setitem_eq
    | unfold held_memory; read_fields;
      rewrite lookup_setitem_other by (by vm_compute);
      apply lookup_pydict_empty
    | reflexivity | reflexivity].
Defined.

Lemma missing_key_without_default_witness :
  hashable (PStr (py "a") : pyobj str) = true
  ∧ SopelMemoryWithDefault.items plain_memory !! PStr (py "a") = None
  ∧ SopelMemoryWithDefault.__getitem__ (PStr (py "a")) plain_memory
    = (Raises KeyError, plain_memory).
Proof.
  split; [reflexivity |]. split; [apply lookup_pydict_empty |].
  apply (missing_key_without_default plain_memory (PStr (py "a")));
    [reflexivity | apply lookup_pydict_empty].
Defined.

End SopelMemoryWithDefaultUse.

(** ** chain_loaders *)

Module LoadersFacts.

Import Loaders.

Section with_types.
Context {Settings Regex : Type}.

Implicit Types (loaders : list (@lazy_loader Settings Regex))
  (settings : Settings).

Lemma chained_loader_app loaders loaders' settings :
  chained_loader (loaders ++ loaders') settings
  = match chained_loader loaders settings with
    | inl e => inl e
    | inr regexes =>
        match chained_loader loaders' settings with
        | inl e => inl e
        | inr regexes' => inr (regexes ++ regexes')
        end
    end.
Proof.
  induction loaders as [| loader loaders IH]; simpl.
  - by destruct (chained_loader loaders' settings).
  - destruct (loader settings) as [e | rs]; [done |]. rewrite IH.
    destruct (chained_loader loaders settings) as [e | rs1]; [done |].
    destruct (chained_loader loaders' settings) as [e | rs2]; [done |].
    by rewrite app_assoc.
Qed.

(** X22: A chain can be chained again: the chain of a chain and further loaders
    does what the chain of all the loaders does, on every settings. *)
Theorem chain_of_chain loaders loaders' settings :
  chain_loaders (chain_loaders loaders :: loaders') settings
  = chain_loaders (loaders ++ loaders') settings.
Proof.
  unfold chain_loaders. rewrite chained_loader_app. simpl.
  by destruct (chained_loader loaders settings).
Qed.

(** X23: When every loader returns, the chain returns all their regexes, loader
    after loader in the order given, duplicates kept. *)
Theorem chain_returns_all loaders settings (results : list (list Regex)) :
  Forall2 (λ loader regexes, loader settings = inr regexes) loaders results →
  chain_loaders loaders settings = inr (mjoin results).
Proof.
  unfold chain_loaders.
  induction 1 as [| loader regexes loaders results Hl _ IH]; simpl; [done |].
  by rewrite Hl, IH.
Qed.

(** X24: When a loader raises and those before it return, the chain raises the
    same exception, whatever the loaders after it do. *)
Theorem chain_raises_first loaders loaders' (loader : lazy_loader) settings
  (e : exception) :
  Forall (λ l, ∃ regexes, l settings = inr regexes) loaders →
  loader settings = inl e →
  chain_loaders (loaders ++ loader :: loaders') settings = inl e.
Proof.
  unfold chain_loaders. intros Hbefore He.
  induction Hbefore as [| l loaders [regexes Hl] _ IH]; simpl.
  - by rewrite He.
  - by rewrite Hl, IH.
Qed.

End with_types.

Lemma chain_returns_all_witness :
  Forall2 (λ (loader : @lazy_loader nat nat) regexes, loader 5 = inr regexes)
    [λ n, inr [n]; λ n, inr [n; n + 1]] [[5]; [5; 6]]
  ∧ chain_loaders [λ n : nat, inr [n]; λ n, inr [n; n + 1]] 5
    = inr [5; 5; 6].
Proof.
  assert (Forall2
            (λ (loader : @lazy_loader nat nat) regexes, loader 5 = inr regexes)
            [λ n, inr [n]; λ n, inr [n; n + 1]] [[5]; [5; 6]]) as Hall
    by (by repeat constructor).
  split; [exact Hall |]. exact (chain_returns_all _ 5 _ Hall).
Defined.

Lemma chain_raises_first_witness :
  chain_loaders
    ([λ n : nat, inr [n]] ++ (λ _, inl KeyError) :: [λ n, inr [n + 1]]) 5
  = (inl KeyError : exception + list nat).
Proof.
  apply (chain_raises_first [λ n : nat, inr [n]] [λ n, inr [n + 1]]
           (λ _, inl KeyError) 5 KeyError); [| reflexivity].
  repeat constructor. by exists [5].
Defined.

End LoadersFacts.

(** ** get_hostmask_regex *)

Module HostmaskFacts.

Import Text PyStr Hostmask.
Local Open Scope Z_scope.

Lemma star_is_special : STAR ∈ special_chars.
Proof. by apply (bool_decide_eq_true_1 (STAR ∈ special_chars)). Qed.

Lemma backslash_is_special : BACKSLASH ∈ special_chars.
Proof. by apply (bool_decide_eq_true_1 (BACKSLASH ∈ special_chars)). Qed.

(** An escaped text does not start with a bare star. *)
Lemma re_escape_head (mask : str) : head (re_escape mask) ≠ Some STAR.
Proof.
  destruct mask as [| c rest]; [done |].
  unfold re_escape. simpl. unfold re_escape_char.
  case_bool_decide as Hc; simpl; [done |].
  intros [= ->]. apply Hc, star_is_special.
Qed.

Lemma startswith_nil (text : str) : startswith text [] = true.
Proof. by destruct text. Qed.

Lemma startswith_backslash_star (c : Z) (rest : str) :
  startswith (c :: rest) (py "\*")
  = (c =? BACKSLASH) && bool_decide (head rest = Some STAR).
Proof.
  change (py "\*") with [BACKSLASH; STAR]. simpl.
  destruct rest as [| x rest']; simpl.
  - by rewrite andb_false_r.
  - rewrite startswith_nil, andb_true_r. f_equal. unfold STAR.
    case_bool_decide as Hx.
    + injection Hx as ->. reflexivity.
    + apply Z.eqb_neq. intros ->. by apply Hx.
Qed.

(** The replacement, run over an escaped mask, works character by
    character of the mask. *)
Lemma replace_escaped (mask : str) :
  replace (re_escape mask) (py "\*") (py ".*") None
  = mjoin (mask_char <$> mask).
Proof.
  unfold replace. induction mask as [| c rest IH]; [done |].
  change (re_escape (c :: rest)) with (re_escape_char c ++ re_escape rest).
  change (mjoin (mask_char <$> c :: rest))
    with (mask_char c ++ mjoin (mask_char <$> rest)).
  rewrite <- IH. clear IH.
  pose proof (re_escape_head rest) as Hhead.
  unfold mask_char, re_escape_char.
  destruct (c =? STAR) eqn:Hstar.
  - apply Z.eqb_eq in Hstar as ->.
    rewrite bool_decide_eq_true_2 by apply star_is_special.
    cbn [app replace_from]. rewrite startswith_backslash_star.
    rewrite Z.eqb_refl. cbn [head].
    rewrite bool_decide_eq_true_2 by done. reflexivity.
  - apply Z.eqb_neq in Hstar. case_bool_decide as Hc.
    + cbn [app replace_from]. rewrite startswith_backslash_star.
      rewrite Z.eqb_refl. cbn [head].
      rewrite bool_decide_eq_false_2 by (by intros [= ?]).
      cbn [andb may_replace]. f_equal.
      rewrite startswith_backslash_star.
      by rewrite bool_decide_eq_false_2, andb_false_r.
    + cbn [app replace_from]. rewrite startswith_backslash_star.
      replace (c =? BACKSLASH) with false; [done |].
      symmetry. apply Z.eqb_neq. intros ->. apply Hc, backslash_is_special.
Qed.

(** X25: The pattern of a mask, character by character: each star of the mask
    is the wildcard [.*], every other character is itself, escaped when
    [re.escape] escapes it (a backslash before a star too), and the pattern
    ends with [$] and ignores case. *)
Theorem pattern_of_mask (mask : str) :
  pattern (get_hostmask_regex mask) = mjoin (mask_char <$> mask) ++ py "$"
  ∧ flags (get_hostmask_regex mask) = [IGNORECASE].
Proof.
  unfold get_hostmask_regex. simpl. by rewrite replace_escaped.
Qed.

End HostmaskFacts.

(** ** The logger of a deprecation warning *)

Module LoggingFacts.

Import Text PyStr Logging.
Local Open Scope Z_scope.

Lemma replace_exhausted (old new text : str) :
  replace_from 0 (Some 0%nat) old new text = text.
Proof. induction text as [| c rest IH]; simpl; [done |]. by rewrite IH. Qed.

Lemma startswith_app (prefix rest : str) :
  startswith (prefix ++ rest) prefix = true.
Proof.
  induction prefix as [| p prefix IH]; simpl; [by destruct rest |].
  by rewrite Z.eqb_refl, IH.
Qed.

Lemma replace_skip (l : str) (count : option nat) (old new rest : str) :
  replace_from (length l) count old new (l ++ rest)
  = replace_from 0 count old new rest.
Proof. induction l as [| c l IH]; simpl; [done | apply IH]. Qed.

(** [replace] with a count of 1 on a text that starts with [old]. *)
Lemma replace_first_prefix (p : Z) (old new rest : str) :
  replace ((p :: old) ++ rest) (p :: old) new (Some 1%nat) = new ++ rest.
Proof.
  unfold replace. cbn [app replace_from may_replace andb].
  change (p :: old ++ rest) with ((p :: old) ++ rest).
  rewrite startswith_app. cbn [length Nat.sub fmap option_fmap option_map].
  rewrite Nat.sub_0_r, replace_skip. by rewrite replace_exhausted.
Qed.

Lemma deprecation_logger_cons (c : Z) (rest : str) :
  deprecation_logger (Some (c :: rest))
  = if startswith (c :: rest) (py "sopel.") then c :: rest
    else get_logger
           (if startswith (c :: rest) (py "sopel_modules.") then
              replace (c :: rest) (py "sopel_modules.") [] (Some 1%nat)
            else c :: rest).
Proof. reflexivity. Qed.


(** X27: A plugin of the namespace package [sopel_modules] is logged under its
    own name: the logger of [sopel_modules.name] is
    [sopel.externals.name]. *)
Theorem namespace_prefix_is_dropped (name : str) :
  deprecation_logger (Some (py "sopel_modules." ++ name))
  = py "sopel.externals." ++ name.
Proof.
  change (py "sopel_modules." ++ name)
    with (0x73 :: (py "opel_modules." ++ name)).
  rewrite deprecation_logger_cons.
  change (0x73 :: (py "opel_modules." ++ name))
    with (py "sopel_modules." ++ name).
  assert (startswith (py "sopel_modules." ++ name) (py "sopel.") = false)
    as -> by reflexivity.
  rewrite startswith_app.
  change (py "sopel_modules.") with (0x73 :: py "opel_modules.").
  by rewrite replace_first_prefix.
Qed.

End LoggingFacts.
